(** * Master-key / master-password lifecycle (packages/lib/services/e2ee/utils.ts)

    A shallow embedding of the end-to-end-encryption utilities of the note
    application: the functions of [utils.ts] become Rocq functions over an
    explicit application state, in a state-and-exception monad.  Exceptions
    keep the state reached when they were thrown, as in JavaScript: a
    mutation made before a [throw] stays made.

    Logging ([logger.info], [logger.warn]) has no influence on any value or
    state the functions compute and is left out of the embedding. *)

From Stdlib Require Import ZArith String List Bool Lia.
From stdpp Require Import base option list gmap strings.

Local Open Scope string_scope.

(** ** Data model *)

(** [MasterKeyEntity] (services/e2ee/types): the fields the utilities read. *)
Record MasterKeyEntity := mkMasterKey {
  mk_id : string;
  mk_created_time : Z;
  mk_content : string;
  mk_enabled : bool;
}.

(** The public/private key pair stored in the sync info. *)
Record PublicPrivateKeyPair := mkPpk {
  ppk_id : string;
  ppk_publicKey : string;
  ppk_privateKey : string;
}.

(** [SyncInfo] (services/synchronizer/syncInfoUtils).  An unset
    [activeMasterKeyId] is the empty string. *)
Record SyncInfo := mkSyncInfo {
  e2ee : bool;
  activeMasterKeyId : string;
  masterKeys : list MasterKeyEntity;
  ppk : option PublicPrivateKeyPair;
}.

(** A thrown value: [Error] has no [code], [JoplinError] carries one. *)
Record JsError := mkError {
  message : string;
  code : option string;
}.

Definition Error (msg : string) : JsError := mkError msg None.
Definition JoplinError (msg c : string) : JsError := mkError msg (Some c).

(** Modelled from the spec: the EncryptionService keeps the decrypted
    ("loaded") master keys in memory, by id, together with the id of the
    key it encrypts with (section 2 and section 6 of the specification;
    the class itself is not among the sources). *)
Record EncryptionService := mkService {
  decryptedMasterKeys : gset string;
  service_activeMasterKeyId : string;
}.

Inductive MasterPasswordStatus :=
  | Unknown
  | Loaded
  | NotSet
  | Invalid
  | Valid.

(** The numeric values of the TypeScript enum. *)
Definition MasterPasswordStatus_value (s : MasterPasswordStatus) : Z :=
  match s with
  | Unknown => 0
  | Loaded => 1
  | NotSet => 2
  | Invalid => 3
  | Valid => 4
  end.

(** JavaScript truthiness of a string, and of a possibly undefined string. *)
Definition truthy (s : string) : bool :=
  match s with
  | EmptyString => false
  | String _ _ => true
  end.

Definition truthy_opt (o : option string) : bool :=
  match o with
  | Some s => truthy s
  | None => false
  end.

(** ** Application state

    The sync info, the two settings the utilities use, the encryption
    service and the item store (left abstract). *)

Record State (Items : Type) := mkState {
  syncInfo : SyncInfo;                       (* localSyncInfo() *)
  masterPassword : string;                   (* encryption.masterPassword *)
  passwordCache : gmap string string;        (* encryption.passwordCache *)
  service : EncryptionService;
  items : Items;
}.

Arguments mkState {Items}.
Arguments syncInfo {Items}.
Arguments masterPassword {Items}.
Arguments passwordCache {Items}.
Arguments service {Items}.
Arguments items {Items}.

Definition set_syncInfo {Items} (f : SyncInfo -> SyncInfo) (s : State Items) : State Items :=
  mkState (f (syncInfo s)) (masterPassword s) (passwordCache s) (service s) (items s).
Definition set_masterPassword {Items} (p : string) (s : State Items) : State Items :=
  mkState (syncInfo s) p (passwordCache s) (service s) (items s).
Definition set_passwordCache {Items} (c : gmap string string) (s : State Items) : State Items :=
  mkState (syncInfo s) (masterPassword s) c (service s) (items s).
Definition set_service {Items} (f : EncryptionService -> EncryptionService) (s : State Items)
  : State Items :=
  mkState (syncInfo s) (masterPassword s) (passwordCache s) (f (service s)) (items s).
Definition set_items {Items} (f : Items -> Items) (s : State Items) : State Items :=
  mkState (syncInfo s) (masterPassword s) (passwordCache s) (service s) (f (items s)).

(** ** A transparent instance of the collaborators

    An instance in which nothing is hidden: the content of a key (and the
    private key of a pair) is the very password that protects it.  It
    serves to run the utilities on concrete states. *)

Module Plain.

Definition invalidPassword : JsError := Error "Invalid password".

Definition checkMasterKeyPassword (mk : MasterKeyEntity) (password : string) : bool :=
  String.eqb (mk_content mk) password.

Definition ppkPasswordIsValid (p : PublicPrivateKeyPair) (password : string) : bool :=
  String.eqb (ppk_privateKey p) password.

Definition reencryptMasterKey (mk : MasterKeyEntity) (old new : string)
  : JsError + MasterKeyEntity :=
  if String.eqb (mk_content mk) old
  then inr (mkMasterKey (mk_id mk) (mk_created_time mk) new (mk_enabled mk))
  else inl invalidPassword.

Definition pkReencryptPrivateKey (p : PublicPrivateKeyPair) (old new : string)
  : JsError + PublicPrivateKeyPair :=
  if String.eqb (ppk_privateKey p) old
  then inr (mkPpk (ppk_id p) (ppk_publicKey p) new)
  else inl invalidPassword.

Definition decryptMasterKeyContent (mk : MasterKeyEntity) (password : string)
  : option JsError :=
  if String.eqb (mk_content mk) password then None else Some invalidPassword.

Definition markAllNonEncryptedForSync (u : unit) : unit := u.

Definition mk1 : MasterKeyEntity := mkMasterKey "mk1" 10 "pwA" true.
Definition mk2 : MasterKeyEntity := mkMasterKey "mk2" 20 "pwC" true.
Definition mk3 : MasterKeyEntity := mkMasterKey "mk3" 30 "pwA" false.
Definition pair : PublicPrivateKeyPair := mkPpk "ppk1" "public" "pwA".

Definition noService : EncryptionService := mkService ∅ EmptyString.

(** Two keys, the second still under a legacy password, and a key pair. *)
Definition mixed : State unit :=
  mkState (mkSyncInfo true "mk1" [mk1; mk2] (Some pair))
          "pwA" {[ "mk1" := "pwOld"; "mk2" := "pwC" ]} noService tt.

(** No key and no key pair, a master password stored. *)
Definition keyless : State unit :=
  mkState (mkSyncInfo false EmptyString [] None) "pwA" ∅ noService tt.

(** No key, no key pair and no master password. *)
Definition blank : State unit :=
  mkState (mkSyncInfo false EmptyString [] None) EmptyString ∅ noService tt.

(** Before migration: no master password, per-key passwords only. *)
Definition legacy : State unit :=
  mkState (mkSyncInfo true "mk1" [mk1; mk2] None)
          EmptyString {[ "mk1" := "pwA"; "mk2" := "pwC"; "mk3" := "pwA" ]} noService tt.

(** The cached password of the first key no longer decrypts it. *)
Definition stale : State unit :=
  mkState (mkSyncInfo true "mk2" [mk1; mk2] None)
          EmptyString {[ "mk1" := "pwOld"; "mk2" := "pwC" ]} noService tt.

(** Two keys and a key pair, all under the master password. *)
Definition uniform : State unit :=
  mkState (mkSyncInfo true "mk1" [mk1; mk3] (Some pair)) "pwA" ∅ noService tt.

(** The state [uniform] after its password was changed to [pwB]. *)
Definition uniformChanged : State unit :=
  mkState (mkSyncInfo true "mk1"
             [mkMasterKey "mk1" 10 "pwB" true; mkMasterKey "mk3" 30 "pwB" false]
             (Some (mkPpk "ppk1" "public" "pwB")))
          "pwB" ∅ noService tt.

(** One enabled key known, and a flagged id that is the id of no key. *)
Definition oneKnownKey : SyncInfo := mkSyncInfo true "mk1" [mk1] None.

Definition forceSyncAll (u : unit) : unit := u.

(** Key generation refuses an empty password. *)
Definition generateMasterKey (password : string) : JsError + MasterKeyEntity :=
  match password with
  | EmptyString => inl (Error "Encryption key is required")
  | _ => inr (mkMasterKey "mk9" 90 password true)
  end.

(** The keys [mk1] (enabled) and [mk3] (disabled) are known. *)
Definition twoKnownKeys : SyncInfo := mkSyncInfo true "mk1" [mk1; mk3] None.

(** Key and master password agree, the key pair is under another
    password. *)
Definition strayPair : State unit :=
  mkState (mkSyncInfo true "mk1" [mk1] (Some (mkPpk "ppk1" "public" "pwOther")))
          "pwA" ∅ noService tt.

End Plain.

Section Utils.

(** ** Collaborators

    The item store, the cryptographic checks and the re-encryption
    primitives live outside [utils.ts]; the utilities are embedded over
    any implementation of them. *)

Variable Items : Type.
Variable markAllNonEncryptedForSync : Items -> Items.

(** [EncryptionService.checkMasterKeyPassword]: never throws. *)
Variable checkMasterKeyPassword : MasterKeyEntity -> string -> bool.

(** [ppkPasswordIsValid] of ./ppk. *)
Variable ppkPasswordIsValid : PublicPrivateKeyPair -> string -> bool.

(** [EncryptionService.reencryptMasterKey mk old new]: the re-encrypted
    key, or the error it throws. *)
Variable reencryptMasterKey :
  MasterKeyEntity -> string -> string -> JsError + MasterKeyEntity.

(** [pkReencryptPrivateKey] of ./ppk. *)
Variable pkReencryptPrivateKey :
  PublicPrivateKeyPair -> string -> string -> JsError + PublicPrivateKeyPair.

(** The decryption attempt inside [EncryptionService.loadMasterKey]:
    [None] when the key decrypts with the password, the error otherwise. *)
Variable decryptMasterKeyContent : MasterKeyEntity -> string -> option JsError.

(** ** The monad of the asynchronous functions *)

Definition M (A : Type) : Type := State Items -> (JsError + A) * State Items.

Definition ret {A} (a : A) : M A := fun s => (inr a, s).

Definition bind {A B} (m : M A) (k : A -> M B) : M B :=
  fun s =>
    match m s with
    | (inl e, s') => (inl e, s')
    | (inr a, s') => k a s'
    end.

Definition throw {A} (e : JsError) : M A := fun s => (inl e, s).

Definition try_catch {A} (m : M A) (handler : JsError -> M A) : M A :=
  fun s =>
    match m s with
    | (inl e, s') => handler e s'
    | (inr a, s') => (inr a, s')
    end.

Definition gets {A} (f : State Items -> A) : M A := fun s => (inr (f s), s).
Definition modify (f : State Items -> State Items) : M unit := fun s => (inr tt, f s).

Notation "'let*' x := m 'in' k" := (bind m (fun x => k))
  (at level 10, x name, m at level 100, k at level 200, only parsing).

(** [for (const x of xs) body(x)]. *)
Fixpoint forEach {A} (xs : list A) (body : A -> M unit) : M unit :=
  match xs with
  | [] => ret tt
  | x :: rest => let* _ := body x in forEach rest body
  end.

(** ** Settings and sync-info accessors *)

(** Modelled from the spec: the [Setting] store (not among the sources)
    is a key-value store (section 2); [Setting.value] reads and
    [Setting.setValue] writes the entry of a key.  The two keys the
    utilities use are [encryption.masterPassword] and
    [encryption.passwordCache]. *)
Definition Setting_masterPassword : M string := gets masterPassword.
Definition Setting_passwordCache : M (gmap string string) := gets passwordCache.
Definition Setting_setMasterPassword (p : string) : M unit :=
  modify (set_masterPassword p).
Definition Setting_setPasswordCache (c : gmap string string) : M unit :=
  modify (set_passwordCache c).

(** [Setting.saveAll] flushes the settings to the database; the store is
    modelled with one layer, so flushing changes no value. *)
Definition Setting_saveAll : M unit := ret tt.

(** Modelled from the spec: [localSyncInfo] and [saveLocalSyncInfo] of
    syncInfoUtils (not among the sources) read and replace the sync info
    record (section 3). *)
Definition localSyncInfo : M SyncInfo := gets syncInfo.
Definition saveLocalSyncInfo (s : SyncInfo) : M unit :=
  modify (set_syncInfo (fun _ => s)).

Definition id_is (i : string) (mk : MasterKeyEntity) : bool :=
  String.eqb (mk_id mk) i.

(** Modelled from the spec: [getActiveMasterKey] of syncInfoUtils (not
    among the sources).  The active key is the known key whose id is the
    active id; an unset id, or one that references no known key, gives no
    active key (invariant I3 of the specification). *)
Definition getActiveMasterKey_of (s : SyncInfo) : option MasterKeyEntity :=
  if truthy (activeMasterKeyId s)
  then find (id_is (activeMasterKeyId s)) (masterKeys s)
  else None.

Definition getActiveMasterKey : M (option MasterKeyEntity) :=
  gets (fun s => getActiveMasterKey_of (syncInfo s)).

Definition getActiveMasterKeyId : M string :=
  gets (fun s => activeMasterKeyId (syncInfo s)).

(** Modelled from the spec: [setEncryptionEnabled] of syncInfoUtils (not
    among the sources): sets the enabled flag and, if a key id is given,
    the active key id (section 4.1). *)
Definition setEncryptionEnabled (v : bool) (activeId : option string) : M unit :=
  modify (set_syncInfo (fun s =>
    mkSyncInfo v
      (if truthy_opt activeId then default EmptyString activeId else activeMasterKeyId s)
      (masterKeys s) (ppk s))).

(** Modelled from the spec: [masterKeyEnabled] of syncInfoUtils (not among
    the sources): a key is enabled unless the user disabled it. *)
Definition masterKeyEnabled (mk : MasterKeyEntity) : bool := mk_enabled mk.

(** Modelled from the spec: [MasterKey.all] (not among the sources): the
    registry of master keys is the list of the sync info (section 2). *)
Definition MasterKey_all : M (list MasterKeyEntity) :=
  gets (fun s => masterKeys (syncInfo s)).

(** Modelled from the spec: [MasterKey.latest] (not among the sources):
    the most recently created known key (section 4.7), the first such key
    when several share the latest creation time; none without keys. *)
Fixpoint latest_of (mks : list MasterKeyEntity) (output : option MasterKeyEntity)
  : option MasterKeyEntity :=
  match mks with
  | [] => output
  | mk :: rest =>
      match output with
      | None => latest_of rest (Some mk)
      | Some o =>
          if (mk_created_time o <? mk_created_time mk)%Z
          then latest_of rest (Some mk)
          else latest_of rest (Some o)
      end
  end.

Definition MasterKey_latest : M (option MasterKeyEntity) :=
  gets (fun s => latest_of (masterKeys (syncInfo s)) None).

(** Modelled from the spec: [MasterKey.save] (not among the sources):
    persists a key in the registry, replacing the record with the same id
    or adding the key when the id is new (section 3: identity never
    changes across re-encryption). *)
Fixpoint save_in (mk : MasterKeyEntity) (mks : list MasterKeyEntity)
  : list MasterKeyEntity :=
  match mks with
  | [] => [mk]
  | k :: rest => if id_is (mk_id mk) k then mk :: rest else k :: save_in mk rest
  end.

Definition MasterKey_save (mk : MasterKeyEntity) : M unit :=
  modify (set_syncInfo (fun s =>
    mkSyncInfo (e2ee s) (activeMasterKeyId s) (save_in mk (masterKeys s)) (ppk s))).

(** Modelled from the spec: [EncryptionService.isMasterKeyLoaded] and
    [EncryptionService.loadMasterKey] (section 6): loading decrypts the
    key with the password and fails if it does not decrypt; a loaded key
    is remembered by id and made the active one on request. *)
Definition isMasterKeyLoaded (mk : MasterKeyEntity) : M bool :=
  gets (fun s => bool_decide (mk_id mk ∈ decryptedMasterKeys (service s))).

Definition loadMasterKey (mk : MasterKeyEntity) (password : string) (makeActive : bool)
  : M unit :=
  match decryptMasterKeyContent mk password with
  | Some e => throw e
  | None =>
      modify (set_service (fun sv =>
        mkService ({[ mk_id mk ]} ∪ decryptedMasterKeys sv)
                  (if makeActive then mk_id mk else service_activeMasterKeyId sv)))
  end.

(** [BaseItem.markAllNonEncryptedForSync]. *)
Definition BaseItem_markAllNonEncryptedForSync : M unit :=
  modify (set_items markAllNonEncryptedForSync).

(** A call into a collaborator that returns a value or throws. *)
Definition call {A} (r : JsError + A) : M A :=
  match r with
  | inl e => throw e
  | inr a => ret a
  end.

(** ** The functions of utils.ts *)

(** [findMasterKeyPassword(service, masterKey)]; [None] is [undefined]. *)
Definition findMasterKeyPassword (masterKey : MasterKeyEntity) : M (option string) :=
  let* masterPassword := Setting_masterPassword in
  if truthy masterPassword && checkMasterKeyPassword masterKey masterPassword
  then ret (Some masterPassword)
  else
    let* passwords := Setting_passwordCache in
    ret (passwords !! mk_id masterKey).

(** The body of the loop of [loadMasterKeysFromSettings]. *)
Definition loadOne (activeMasterKeyId : string) (mk : MasterKeyEntity) : M unit :=
  let* loaded := isMasterKeyLoaded mk in
  if loaded then ret tt
  else
    let* password := findMasterKeyPassword mk in
    if negb (truthy_opt password) then ret tt
    else
      try_catch
        (loadMasterKey mk (default EmptyString password)
           (String.eqb activeMasterKeyId (mk_id mk)))
        (fun error => ret tt).

Definition loadMasterKeysFromSettings : M unit :=
  let* masterKeys := MasterKey_all in
  let* activeMasterKeyId := getActiveMasterKeyId in
  forEach masterKeys (loadOne activeMasterKeyId).

(** [setupAndEnableEncryption(service, masterKey = null, masterPassword = null)]. *)
Definition setupAndEnableEncryption
    (masterKey : option MasterKeyEntity) (masterPassword : option string) : M unit :=
  let* _ := setEncryptionEnabled true (mk_id <$> masterKey) in
  let* _ :=
    if truthy_opt masterPassword
    then Setting_setMasterPassword (default EmptyString masterPassword)
    else ret tt in
  let* _ := BaseItem_markAllNonEncryptedForSync in
  loadMasterKeysFromSettings.

(** The loop of [migrateMasterPassword] over [Object.entries(cache)]. *)
Fixpoint purgeLoop (entries : list (string * string)) (masterPassword : string)
    (newCache : gmap string string) : gmap string string :=
  match entries with
  | [] => newCache
  | (mkId, password) :: rest =>
      purgeLoop rest masterPassword
        (if String.eqb password masterPassword then delete mkId newCache else newCache)
  end.

Definition migrateMasterPassword : M unit :=
  let* current := Setting_masterPassword in
  if truthy current then ret tt
  else
    let* info := localSyncInfo in
    if bool_decide (is_Some (ppk info)) then ret tt
    else
      let* active := getActiveMasterKey in
      match active with
      | None => ret tt
      | Some mk =>
          let* passwords := Setting_passwordCache in
          let masterPassword := passwords !! mk_id mk in
          if truthy_opt masterPassword then
            let masterPassword := default EmptyString masterPassword in
            let* _ := Setting_setMasterPassword masterPassword in
            let* cache := Setting_passwordCache in
            let newCache := purgeLoop (map_to_list cache) masterPassword cache in
            let* _ := Setting_setPasswordCache newCache in
            Setting_saveAll
          else ret tt
      end.

(** [showMissingMasterKeyMessage]: the loop runs [i] from [length - 1]
    down to [0] over the copy of the list; [n] is [i + 1].  An index out
    of range reads [undefined], which is the id of no key. *)
Fixpoint missingLoop (known : list MasterKeyEntity) (n : nat)
    (notLoadedMasterKeys : list string) : list string :=
  match n with
  | O => notLoadedMasterKeys
  | S i =>
      let mk :=
        match notLoadedMasterKeys !! i with
        | Some flagged => find (id_is flagged) known
        | None => None
        end in
      match mk with
      | None => missingLoop known i notLoadedMasterKeys
      | Some mk =>
          if negb (masterKeyEnabled mk)
          then missingLoop known i (removelast notLoadedMasterKeys)
          else missingLoop known i notLoadedMasterKeys
      end
  end.

Definition showMissingMasterKeyMessage (syncInfo : SyncInfo)
    (notLoadedMasterKeys : list string) : bool :=
  if (length (masterKeys syncInfo) =? 0)%nat then false
  else
    negb (length (missingLoop (masterKeys syncInfo)
                    (length notLoadedMasterKeys) notLoadedMasterKeys) =? 0)%nat.

Definition getDefaultMasterKey : M (option MasterKeyEntity) :=
  let* mk := getActiveMasterKey in
  match mk with
  | Some mk => ret (Some mk)
  | None => MasterKey_latest
  end.

Definition getMasterPassword (throwIfNotSet : bool) : M string :=
  let* password := Setting_masterPassword in
  if negb (truthy password) && throwIfNotSet
  then throw (JoplinError "Master password is not set" "undefinedMasterPassword")
  else ret password.

Definition reencryptKeyMessage (mk : MasterKeyEntity) (error : JsError) : JsError :=
  mkError
    ("Master key " +:+ mk_id mk +:+
     " could not be reencrypted - this is most likely due to an incorrect password. Please try again. Error was: "
     +:+ message error)
    (code error).

Definition reencryptPpkMessage (error : JsError) : JsError :=
  mkError
    ("Private key could not be reencrypted - this is most likely due to an incorrect password. Please try again. Error was: "
     +:+ message error)
    (code error).

(** The first loop of [updateMasterPassword]; [reencryptedMasterKeys] is
    the local array the results are pushed to. *)
Fixpoint reencryptLoop (mks : list MasterKeyEntity) (currentPassword newPassword : string)
    (reencryptedMasterKeys : list MasterKeyEntity) : M (list MasterKeyEntity) :=
  match mks with
  | [] => ret reencryptedMasterKeys
  | mk :: rest =>
      let* pushed :=
        try_catch
          (let* r := call (reencryptMasterKey mk currentPassword newPassword) in
           ret (reencryptedMasterKeys ++ [r])%list)
          (fun error => throw (reencryptKeyMessage mk error)) in
      reencryptLoop rest currentPassword newPassword pushed
  end.

Definition missingCurrentPassword : JsError :=
  Error "Previous password must be provided in order to reencrypt the encryption keys".

(** [updateMasterPassword(currentPassword, newPassword,
    waitForSyncFinishedThenSync = null)].  [localSyncInfo()] only reads,
    so the two reads in the condition of the first [if] are one read here.
    The hook is called and not awaited: what it does before it first
    suspends, and what it throws if it is not asynchronous, is its
    [M unit]. *)
Definition updateMasterPassword (currentPassword newPassword : string)
    (waitForSyncFinishedThenSync : option (M unit)) : M unit :=
  let* info := localSyncInfo in
  let* _ :=
   if bool_decide (is_Some (ppk info)) || negb (length (masterKeys info) =? 0)%nat
   then
     if negb (truthy currentPassword) then throw missingCurrentPassword
     else
       let* info := localSyncInfo in
       let* reencryptedMasterKeys := reencryptLoop (masterKeys info) currentPassword newPassword [] in
       let* info := localSyncInfo in
       let* reencryptedPpk :=
         match ppk info with
         | Some p =>
             try_catch
               (let* r := call (pkReencryptPrivateKey p currentPassword newPassword) in
                ret (Some r))
               (fun error => throw (reencryptPpkMessage error))
         | None => ret None
         end in
       let* _ := forEach reencryptedMasterKeys MasterKey_save in
       match reencryptedPpk with
       | Some p =>
           let* syncInfo := localSyncInfo in
           saveLocalSyncInfo
             (mkSyncInfo (e2ee syncInfo) (activeMasterKeyId syncInfo) (masterKeys syncInfo) (Some p))
       | None => ret tt
       end
   else ret tt in
  let* _ := Setting_setMasterPassword newPassword in
  match waitForSyncFinishedThenSync with
  | Some hook => hook
  | None => ret tt
  end.

Definition noKeyToDecrypt : JsError :=
  JoplinError "Cannot check master password validity as no key is present" "noKeyToDecrypt".

Definition masterPasswordIsValid (masterPassword : string) : M bool :=
  let* info := localSyncInfo in
  match ppk info with
  | Some p => ret (ppkPasswordIsValid p masterPassword)
  | None =>
      let* masterKey := getDefaultMasterKey in
      match masterKey with
      | Some mk => ret (checkMasterKeyPassword mk masterPassword)
      | None => throw noKeyToDecrypt
      end
  end.

Definition has_code (c : string) (error : JsError) : bool :=
  match code error with
  | Some c' => String.eqb c' c
  | None => false
  end.

Definition getMasterPasswordStatus : M MasterPasswordStatus :=
  let* password := getMasterPassword false in
  if negb (truthy password) then ret NotSet
  else
    try_catch
      (let* isValid := masterPasswordIsValid password in
       ret (if isValid then Valid else Invalid))
      (fun error =>
         if has_code "noKeyToDecrypt" error then ret Loaded else throw error).

(** ** The remaining functions of utils.ts *)

(** [BaseItem.forceSyncAll] of the item store. *)
Variable forceSyncAll : Items -> Items.

(** [EncryptionService.generateMasterKey password]: the new key, or the
    error it throws.  The function is called once in a run, so that any
    outcome of a call is covered by some function. *)
Variable generateMasterKey : string -> JsError + MasterKeyEntity.

Definition BaseItem_forceSyncAll : M unit :=
  modify (set_items forceSyncAll).

(** [setupAndDisableEncryption(service)]; [setEncryptionEnabled(false)]
    is called without key id. *)
Definition setupAndDisableEncryption : M unit :=
  let* _ := setEncryptionEnabled false None in
  let* _ := BaseItem_forceSyncAll in
  loadMasterKeysFromSettings.

(** Modelled from the spec: the value [MasterKey.save] returns (not among
    the sources) is the key it has persisted; a generated key is taken to
    carry its id (section 6: [generateMasterKey(password) -> MasterKey]). *)
Definition MasterKey_saved (mk : MasterKeyEntity) : M MasterKeyEntity :=
  let* _ := MasterKey_save mk in
  ret mk.

(** [generateMasterKeyAndEnableEncryption(service, password)]. *)
Definition generateMasterKeyAndEnableEncryption (password : string) : M MasterKeyEntity :=
  let* masterKey := call (generateMasterKey password) in
  let* masterKey := MasterKey_saved masterKey in
  let* _ := setupAndEnableEncryption (Some masterKey) (Some password) in
  let* _ := loadMasterKeysFromSettings in
  ret masterKey.

(** [toggleAndSetupEncryption(service, enabled, masterKey, password)];
    [masterKey] may be null. *)
Definition toggleAndSetupEncryption (enabled : bool) (masterKey : option MasterKeyEntity)
    (password : string) : M unit :=
  let* _ :=
    if negb enabled then setupAndDisableEncryption
    else
      match masterKey with
      | Some mk => setupAndEnableEncryption (Some mk) (Some password)
      | None =>
          let* _ := generateMasterKeyAndEnableEncryption password in
          ret tt
      end in
  loadMasterKeysFromSettings.

(** The table [masterPasswordStatusMessages], keyed by the values of the
    enum, and [getMasterPasswordStatusMessage]; [None] is [undefined]. *)
Definition masterPasswordStatusMessages : gmap Z string :=
  {[ MasterPasswordStatus_value Unknown := "Checking...";
     MasterPasswordStatus_value Loaded := "Loaded";
     MasterPasswordStatus_value NotSet := "Not set";
     MasterPasswordStatus_value Valid := "✓ " +:+ "Valid";
     MasterPasswordStatus_value Invalid := "❌ " +:+ "Invalid" ]}.

Definition getMasterPasswordStatusMessage (status : MasterPasswordStatus) : option string :=
  masterPasswordStatusMessages !! MasterPasswordStatus_value status.

(** ** Notions used to state the properties *)

(** Re-encryption of some master key, or of the key pair, fails. *)
Definition reencryptionFails (currentPassword newPassword : string) (info : SyncInfo) : Prop :=
  (exists mk e, mk ∈ masterKeys info /\
                reencryptMasterKey mk currentPassword newPassword = inl e) \/
  (exists p e, ppk info = Some p /\
               pkReencryptPrivateKey p currentPassword newPassword = inl e).

(** The flagged id is the id of a known key that the user disabled. *)
Definition knownDisabled (known : list MasterKeyEntity) (flagged : string) : bool :=
  match find (id_is flagged) known with
  | Some mk => negb (masterKeyEnabled mk)
  | None => false
  end.

(** A candidate password is found for the key and decrypts it. *)
Definition loadable (s : State Items) (mk : MasterKeyEntity) : Prop :=
  exists password,
    fst (findMasterKeyPassword mk s) = inr (Some password) /\
    truthy password = true /\
    decryptMasterKeyContent mk password = None.

(** How many of the flagged ids are ids of known, disabled keys. *)
Definition disabledCount (known : list MasterKeyEntity) (flagged : list string) : nat :=
  length (List.filter (knownDisabled known) flagged).

(** The ids of the keys loaded in the encryption service. *)
Definition loadedIds (s : State Items) : gset string :=
  decryptedMasterKeys (service s).

(** The registry, the settings and the item store are the same. *)
Definition sameStores (s s' : State Items) : Prop :=
  syncInfo s' = syncInfo s /\ masterPassword s' = masterPassword s /\
  passwordCache s' = passwordCache s /\ items s' = items s.

(** The key is the latest of the list: none was created after it. *)
Definition latestIn (mks : list MasterKeyEntity) (mk : MasterKeyEntity) : Prop :=
  mk ∈ mks /\ forall other, other ∈ mks -> (mk_created_time other <= mk_created_time mk)%Z.

(** The outcome of the first loop of [updateMasterPassword]: the
    re-encrypted keys in order, or the error of the first key that fails,
    with its message extended. *)
Fixpoint reencryptAll (currentPassword newPassword : string) (mks : list MasterKeyEntity)
  : JsError + list MasterKeyEntity :=
  match mks with
  | [] => inr []
  | mk :: rest =>
      match reencryptMasterKey mk currentPassword newPassword with
      | inl e => inl (reencryptKeyMessage mk e)
      | inr r =>
          match reencryptAll currentPassword newPassword rest with
          | inl e => inl e
          | inr rs => inr (r :: rs)
          end
      end
  end.

(** The registry after the keys [rs] were saved one after the other. *)
Definition saveAll (rs known : list MasterKeyEntity) : list MasterKeyEntity :=
  fold_left (fun ks r => save_in r ks) rs known.


(** The state after a password change that went through: the keys [rs]
    saved, the key pair replaced if there is a new one, the password
    stored. *)
Definition afterChange (newPassword : string) (rs : list MasterKeyEntity)
    (pair : option PublicPrivateKeyPair) (s : State Items) : State Items :=
  set_masterPassword newPassword
    (set_syncInfo
       (fun i => mkSyncInfo (e2ee i) (activeMasterKeyId i) (saveAll rs (masterKeys i))
                   (match pair with Some p => Some p | None => ppk i end))
       s).

(** What [updateMasterPassword] does before it calls the hook. *)
Definition changeOutcome (currentPassword newPassword : string) (s : State Items)
  : (JsError + unit) * State Items :=
  if bool_decide (is_Some (ppk (syncInfo s)))
     || negb (length (masterKeys (syncInfo s)) =? 0)%nat
  then
    if negb (truthy currentPassword) then (inl missingCurrentPassword, s)
    else
      match reencryptAll currentPassword newPassword (masterKeys (syncInfo s)) with
      | inl e => (inl e, s)
      | inr rs =>
          match ppk (syncInfo s) with
          | None => (inr tt, afterChange newPassword rs None s)
          | Some p =>
              match pkReencryptPrivateKey p currentPassword newPassword with
              | inl e => (inl (reencryptPpkMessage e), s)
              | inr p' => (inr tt, afterChange newPassword rs (Some p') s)
              end
          end
      end
  else (inr tt, set_masterPassword newPassword s).

(** ** Basic facts *)

Lemma truthy_true (s : string) : truthy s = true <-> s <> EmptyString.
Proof. destruct s; simpl; split; intros; congruence. Qed.

Lemma truthy_false (s : string) : truthy s = false <-> s = EmptyString.
Proof. destruct s; simpl; split; intros; congruence. Qed.

Lemma bind_ok {A B} (m : M A) (k : A -> M B) s a s' :
  m s = (inr a, s') -> bind m k s = k a s'.
Proof. intros H. unfold bind. rewrite H. reflexivity. Qed.

Lemma bind_err {A B} (m : M A) (k : A -> M B) s e s' :
  m s = (inl e, s') -> bind m k s = (inl e, s').
Proof. intros H. unfold bind. rewrite H. reflexivity. Qed.

(** ** The password-change transaction *)

(** The re-encryption loop works on its local array only. *)
Lemma reencryptLoop_state mks cur new acc s :
  snd (reencryptLoop mks cur new acc s) = s.
Proof.
  revert acc. induction mks as [|mk rest IH]; intros acc; simpl; [reflexivity|].
  unfold bind, try_catch, call.
  destruct (reencryptMasterKey mk cur new) as [e|r]; simpl; [reflexivity|].
  apply IH.
Qed.

Lemma reencryptLoop_fails mks cur new acc s :
  (exists mk e, mk ∈ mks /\ reencryptMasterKey mk cur new = inl e) ->
  exists e, reencryptLoop mks cur new acc s = (inl e, s).
Proof.
  revert acc. induction mks as [|mk rest IH]; intros acc (k & e & Hin & Hk).
  - inversion Hin.
  - simpl. unfold bind, try_catch, call.
    destruct (reencryptMasterKey mk cur new) as [e'|r] eqn:Hmk; simpl.
    + eexists. reflexivity.
    + apply IH. exists k, e. split; [|exact Hk].
      apply elem_of_cons in Hin as [->|Hin]; [congruence|exact Hin].
Qed.

Lemma reencryptLoop_succeeds mks cur new acc s out s' :
  reencryptLoop mks cur new acc s = (inr out, s') ->
  forall mk, mk ∈ mks -> exists r, reencryptMasterKey mk cur new = inr r.
Proof.
  revert acc. induction mks as [|mk rest IH]; intros acc Hrun k Hin.
  - inversion Hin.
  - simpl in Hrun. unfold bind, try_catch, call in Hrun.
    destruct (reencryptMasterKey mk cur new) as [e'|r] eqn:Hmk; simpl in Hrun;
      [discriminate|].
    apply elem_of_cons in Hin as [->|Hin]; [eauto|].
    eapply IH; eassumption.
Qed.

Lemma updateMasterPassword_guard (info : SyncInfo) :
  bool_decide (is_Some (ppk info)) || negb (length (masterKeys info) =? 0)%nat = false
  <-> ppk info = None /\ masterKeys info = [].
Proof.
  rewrite orb_false_iff, bool_decide_eq_false, negb_false_iff, Nat.eqb_eq.
  rewrite <- eq_None_not_Some, length_zero_iff_nil. reflexivity.
Qed.

(** C1. If re-encryption of some master key or of the key pair fails,
    [updateMasterPassword] raises an error and the state it leaves is the
    state it was called in: no master key, no sync info and no master
    password is written, and the re-encryptions that succeeded are dropped
    with the local array that held them. *)
Theorem updateMasterPassword_all_or_nothing
    (s : State Items) (currentPassword newPassword : string) (hook : option (M unit)) :
  reencryptionFails currentPassword newPassword (syncInfo s) ->
  exists e, updateMasterPassword currentPassword newPassword hook s = (inl e, s).
Proof.
  intros Hfail. unfold updateMasterPassword.
  erewrite bind_ok by reflexivity.
  match goal with
  | |- exists e, bind ?m _ _ = _ => assert (exists e, m s = (inl e, s)) as [e He]
  end.
  2:{ exists e. apply bind_err. exact He. }
  destruct (bool_decide (is_Some (ppk (syncInfo s)))
            || negb (length (masterKeys (syncInfo s)) =? 0)%nat) eqn:Hguard.
  2:{ apply updateMasterPassword_guard in Hguard as [Hp Hk].
      destruct Hfail as [(mk & e & Hin & _)|(p & e & Hsome & _)].
      - rewrite Hk in Hin. inversion Hin.
      - congruence. }
  destruct (truthy currentPassword) eqn:Hcur; simpl.
  2:{ exists missingCurrentPassword. reflexivity. }
  erewrite bind_ok by reflexivity.
  pose proof (reencryptLoop_state (masterKeys (syncInfo s))
                currentPassword newPassword [] s) as Hs.
  destruct (reencryptLoop (masterKeys (syncInfo s)) currentPassword newPassword [] s)
    as [[e|out] s1] eqn:Hloop; simpl in Hs; subst s1.
  - exists e. apply bind_err. exact Hloop.
  - erewrite bind_ok by exact Hloop.
    erewrite bind_ok by reflexivity.
    destruct Hfail as [(mk & e & Hin & Hmk)|(p & e & Hsome & Hp)].
    + destruct (reencryptLoop_succeeds _ _ _ _ _ _ _ Hloop mk Hin) as [r Hr].
      congruence.
    + rewrite Hsome. exists (reencryptPpkMessage e). apply bind_err.
      unfold try_catch, bind, call. rewrite Hp. reflexivity.
Qed.

(** C9. While a master key or a key pair exists, a password change
    without the current password fails with the missing-current-password
    error before anything is re-encrypted or written: the state is the one
    the call started in. *)
Theorem updateMasterPassword_requires_current
    (s : State Items) (newPassword : string) (hook : option (M unit)) :
  masterKeys (syncInfo s) <> [] \/ is_Some (ppk (syncInfo s)) ->
  updateMasterPassword EmptyString newPassword hook s = (inl missingCurrentPassword, s).
Proof.
  intros Hexists. unfold updateMasterPassword.
  erewrite bind_ok by reflexivity.
  apply bind_err.
  destruct (bool_decide (is_Some (ppk (syncInfo s)))
            || negb (length (masterKeys (syncInfo s)) =? 0)%nat) eqn:Hguard.
  - reflexivity.
  - apply updateMasterPassword_guard in Hguard as [Hp Hk].
    destruct Hexists as [Hne|[p Hsome]]; congruence.
Qed.

Lemma updateMasterPassword_keyless
    (s : State Items) (currentPassword newPassword : string) :
  masterKeys (syncInfo s) = [] ->
  ppk (syncInfo s) = None ->
  updateMasterPassword currentPassword newPassword None s
  = (inr tt, set_masterPassword newPassword s).
Proof.
  intros Hk Hp. unfold updateMasterPassword.
  erewrite bind_ok by reflexivity.
  rewrite Hk, Hp. reflexivity.
Qed.

(** C10. Without any master key and without key pair, a password change
    succeeds whatever the current password given, the empty one included,
    and all it does is to store the new password as master password. *)
Theorem updateMasterPassword_without_keys
    (s : State Items) (currentPassword newPassword : string) :
  masterKeys (syncInfo s) = [] ->
  ppk (syncInfo s) = None ->
  updateMasterPassword currentPassword newPassword None s
  = (inr tt, set_masterPassword newPassword s) /\
  syncInfo (set_masterPassword newPassword s) = syncInfo s /\
  passwordCache (set_masterPassword newPassword s) = passwordCache s /\
  service (set_masterPassword newPassword s) = service s /\
  items (set_masterPassword newPassword s) = items s /\
  masterPassword (set_masterPassword newPassword s) = newPassword.
Proof.
  intros Hk Hp. split; [apply updateMasterPassword_keyless; assumption|].
  repeat split.
Qed.

(** A password change that succeeds stores the new password as given,
    whatever it is. *)
Lemma updateMasterPassword_stores
    (s s' : State Items) (currentPassword newPassword : string) :
  updateMasterPassword currentPassword newPassword None s = (inr tt, s') ->
  masterPassword s' = newPassword.
Proof.
  unfold updateMasterPassword. erewrite bind_ok by reflexivity.
  unfold bind at 1.
  match goal with |- context [match ?m s with _ => _ end] => destruct (m s) as [[e|[]] s1] end.
  - discriminate.
  - cbn. intros [= <-]. reflexivity.
Qed.

(** ** Password resolution *)

Lemma findMasterKeyPassword_reads (s : State Items) (mk : MasterKeyEntity) :
  findMasterKeyPassword mk s
  = (inr (if truthy (masterPassword s) && checkMasterKeyPassword mk (masterPassword s)
          then Some (masterPassword s)
          else passwordCache s !! mk_id mk), s).
Proof.
  unfold findMasterKeyPassword. erewrite bind_ok by reflexivity.
  destruct (truthy (masterPassword s) && checkMasterKeyPassword mk (masterPassword s));
    reflexivity.
Qed.

(** C4. [findMasterKeyPassword] returns the master password whenever it
    is set and verifies against the key, whatever password is cached for
    the key; in every other case it returns what the password cache holds
    under the id of the key, unverified ([None] when nothing is cached). *)
Theorem findMasterKeyPassword_precedence (s : State Items) (mk : MasterKeyEntity) :
  (masterPassword s <> EmptyString ->
   checkMasterKeyPassword mk (masterPassword s) = true ->
   findMasterKeyPassword mk s = (inr (Some (masterPassword s)), s)) /\
  (~ (masterPassword s <> EmptyString /\
      checkMasterKeyPassword mk (masterPassword s) = true) ->
   findMasterKeyPassword mk s = (inr (passwordCache s !! mk_id mk), s)).
Proof.
  rewrite findMasterKeyPassword_reads. split.
  - intros Hset Hcheck. apply truthy_true in Hset. rewrite Hset, Hcheck. reflexivity.
  - intros Hnot.
    destruct (truthy (masterPassword s)) eqn:Hset; [|reflexivity].
    destruct (checkMasterKeyPassword mk (masterPassword s)) eqn:Hcheck; [|reflexivity].
    exfalso. apply Hnot. split; [apply truthy_true; exact Hset|reflexivity].
Qed.

(** ** Validity of the master password *)

Lemma latest_of_from (mks : list MasterKeyEntity) (o : MasterKeyEntity) :
  exists r, latest_of mks (Some o) = Some r /\
            (r = o \/ r ∈ mks) /\
            (mk_created_time o <= mk_created_time r)%Z /\
            forall other, other ∈ mks -> (mk_created_time other <= mk_created_time r)%Z.
Proof.
  revert o. induction mks as [|mk rest IH]; intros o; simpl.
  - exists o. repeat split; [left; reflexivity|lia|].
    intros other Hin. inversion Hin.
  - destruct (mk_created_time o <? mk_created_time mk)%Z eqn:Hlt.
    + apply Z.ltb_lt in Hlt.
      destruct (IH mk) as (r & Hr & Hwhere & Hle & Hmax).
      exists r. repeat split; [exact Hr| |lia|].
      * right. destruct Hwhere as [->|Hin]; [left|right; exact Hin].
      * intros other Hin. apply elem_of_cons in Hin as [->|Hin]; [exact Hle|auto].
    + apply Z.ltb_ge in Hlt.
      destruct (IH o) as (r & Hr & Hwhere & Hle & Hmax).
      exists r. repeat split; [exact Hr| |exact Hle|].
      * destruct Hwhere as [->|Hin]; [left; reflexivity|right; right; exact Hin].
      * intros other Hin. apply elem_of_cons in Hin as [->|Hin]; [lia|auto].
Qed.

Lemma latest_of_nonempty (mks : list MasterKeyEntity) :
  mks <> [] -> exists r, latest_of mks None = Some r /\ latestIn mks r.
Proof.
  destruct mks as [|mk rest]; [congruence|]. intros _. simpl.
  destruct (latest_of_from rest mk) as (r & Hr & Hwhere & Hle & Hmax).
  exists r. split; [exact Hr|]. split.
  - destruct Hwhere as [->|Hin]; [left|right; exact Hin].
  - intros other Hin. apply elem_of_cons in Hin as [->|Hin]; [exact Hle|auto].
Qed.

Lemma getActiveMasterKey_of_known (info : SyncInfo) (mk : MasterKeyEntity) :
  getActiveMasterKey_of info = Some mk ->
  mk ∈ masterKeys info /\ mk_id mk = activeMasterKeyId info /\
  activeMasterKeyId info <> EmptyString.
Proof.
  unfold getActiveMasterKey_of.
  destruct (truthy (activeMasterKeyId info)) eqn:Hset; [|discriminate].
  intros Hfind. apply find_some in Hfind as [Hin Hid].
  split; [apply list_elem_of_In; exact Hin|].
  split; [apply String.eqb_eq; exact Hid|apply truthy_true; exact Hset].
Qed.

Lemma getDefaultMasterKey_reads (s : State Items) :
  getDefaultMasterKey s
  = (inr (match getActiveMasterKey_of (syncInfo s) with
          | Some mk => Some mk
          | None => latest_of (masterKeys (syncInfo s)) None
          end), s).
Proof.
  unfold getDefaultMasterKey. erewrite bind_ok by reflexivity.
  destruct (getActiveMasterKey_of (syncInfo s)); reflexivity.
Qed.

Lemma masterPasswordIsValid_reads (s : State Items) (password : string) :
  masterPasswordIsValid password s
  = (match ppk (syncInfo s) with
     | Some p => inr (ppkPasswordIsValid p password)
     | None =>
         match getActiveMasterKey_of (syncInfo s) with
         | Some mk => inr (checkMasterKeyPassword mk password)
         | None =>
             match latest_of (masterKeys (syncInfo s)) None with
             | Some mk => inr (checkMasterKeyPassword mk password)
             | None => inl noKeyToDecrypt
             end
         end
     end, s).
Proof.
  unfold masterPasswordIsValid. erewrite bind_ok by reflexivity.
  destruct (ppk (syncInfo s)); [reflexivity|].
  erewrite bind_ok by apply getDefaultMasterKey_reads.
  destruct (getActiveMasterKey_of (syncInfo s)); [reflexivity|].
  destruct (latest_of (masterKeys (syncInfo s)) None); reflexivity.
Qed.

(** C6. [masterPasswordIsValid] raises exactly when there is neither a
    key pair nor any master key, and what it raises then is the
    no-key-to-decrypt error.  With a key pair the result is the check of
    the password against the pair.  Without key pair but with some master
    key, the result is the password check against the default key, which
    is the active key if there is one and a most recently created known
    key otherwise. *)
Theorem masterPasswordIsValid_cases (s : State Items) (password : string) :
  ((exists e s', masterPasswordIsValid password s = (inl e, s')) <->
   ppk (syncInfo s) = None /\ masterKeys (syncInfo s) = []) /\
  (ppk (syncInfo s) = None -> masterKeys (syncInfo s) = [] ->
   masterPasswordIsValid password s = (inl noKeyToDecrypt, s) /\
   has_code "noKeyToDecrypt" noKeyToDecrypt = true) /\
  (forall p, ppk (syncInfo s) = Some p ->
   masterPasswordIsValid password s = (inr (ppkPasswordIsValid p password), s)) /\
  (ppk (syncInfo s) = None -> masterKeys (syncInfo s) <> [] ->
   exists mk,
     getDefaultMasterKey s = (inr (Some mk), s) /\
     masterPasswordIsValid password s = (inr (checkMasterKeyPassword mk password), s) /\
     match getActiveMasterKey_of (syncInfo s) with
     | Some active => mk = active
     | None => latestIn (masterKeys (syncInfo s)) mk
     end).
Proof.
  rewrite masterPasswordIsValid_reads, getDefaultMasterKey_reads.
  destruct (ppk (syncInfo s)) as [p|] eqn:Hp.
  { split; [|split; [|split]].
    - split; [intros (e & s' & Hraise); discriminate|intros [Hnone _]; discriminate].
    - intros Hnone. discriminate.
    - intros q [= <-]. reflexivity.
    - intros Hnone. discriminate. }
  destruct (getActiveMasterKey_of (syncInfo s)) as [active|] eqn:Hactive.
  { apply getActiveMasterKey_of_known in Hactive as (Hin & _ & _).
    assert (masterKeys (syncInfo s) <> []) as Hne.
    { intros Hnil. rewrite Hnil in Hin. inversion Hin. }
    split; [|split; [|split]].
    - split; [intros (e & s' & Hraise); discriminate|intros [_ Hnil]; contradiction].
    - intros _ Hnil. contradiction.
    - intros q Hq. discriminate.
    - intros _ _. exists active. repeat split. }
  destruct (masterKeys (syncInfo s)) as [|mk rest] eqn:Hkeys.
  { simpl. split; [|split; [|split]].
    - split; [intros _; split; reflexivity|intros _; eauto].
    - intros _ _. split; reflexivity.
    - intros q Hq. discriminate.
    - intros _ Hne. congruence. }
  destruct (latest_of_nonempty (mk :: rest)) as (r & Hr & Hlatest); [congruence|].
  rewrite Hr.
  split; [|split; [|split]].
  - split; [intros (e & s' & Hraise); discriminate|intros [_ Hnil]; discriminate].
  - intros _ Hnil. discriminate.
  - intros q Hq. discriminate.
  - intros _ _. exists r. repeat split; apply Hlatest.
Qed.

(** C5. [getMasterPasswordStatus] always returns a status, which is never
    [Unknown].  The status is [NotSet] exactly when no master password is
    configured.  With a password configured, it is [Loaded] exactly when
    the validity check raises the no-key-to-decrypt error, [Valid] when
    the check returns true and [Invalid] when it returns false. *)
Theorem getMasterPasswordStatus_mapping (s : State Items) :
  exists status,
    getMasterPasswordStatus s = (inr status, s) /\
    status <> Unknown /\
    (status = NotSet <-> masterPassword s = EmptyString) /\
    (masterPassword s <> EmptyString ->
     (status = Loaded <->
      exists e, masterPasswordIsValid (masterPassword s) s = (inl e, s) /\
                has_code "noKeyToDecrypt" e = true) /\
     (masterPasswordIsValid (masterPassword s) s = (inr true, s) -> status = Valid) /\
     (masterPasswordIsValid (masterPassword s) s = (inr false, s) -> status = Invalid)).
Proof.
  unfold getMasterPasswordStatus, getMasterPassword.
  erewrite bind_ok by (erewrite bind_ok by reflexivity; rewrite andb_false_r; reflexivity).
  destruct (truthy (masterPassword s)) eqn:Hset; simpl.
  - apply truthy_true in Hset.
    unfold try_catch, bind. rewrite masterPasswordIsValid_reads.
    destruct (match ppk (syncInfo s) with Some _ => _ | None => _ end)
      as [e|[|]] eqn:Hvalid.
    + assert (e = noKeyToDecrypt) as ->.
      { destruct (ppk (syncInfo s)); [discriminate|].
        destruct (getActiveMasterKey_of (syncInfo s)); [discriminate|].
        destruct (latest_of (masterKeys (syncInfo s)) None); congruence. }
      exists Loaded. simpl.
      split; [reflexivity|]. split; [discriminate|].
      split; [split; [discriminate|contradiction]|].
      intros _. split; [|split; discriminate].
      split; [|reflexivity].
      intros _. exists noKeyToDecrypt. split; reflexivity.
    + exists Valid. simpl.
      split; [reflexivity|]. split; [discriminate|].
      split; [split; [discriminate|contradiction]|].
      intros _. split; [|split; [reflexivity|discriminate]].
      split; [discriminate|intros (e & Hraise & _); discriminate].
    + exists Invalid. simpl.
      split; [reflexivity|]. split; [discriminate|].
      split; [split; [discriminate|contradiction]|].
      intros _. split; [|split; [discriminate|reflexivity]].
      split; [discriminate|intros (e & Hraise & _); discriminate].
  - apply truthy_false in Hset. exists NotSet.
    split; [reflexivity|]. split; [discriminate|].
    split; [split; [intros _; exact Hset|reflexivity]|].
    intros Hne. contradiction.
Qed.

(** ** Migration of the master password *)

Lemma migrateMasterPassword_returns (s : State Items) :
  exists s', migrateMasterPassword s = (inr tt, s') /\
    (masterPassword s <> EmptyString -> s' = s) /\
    (s' = s \/ masterPassword s' <> EmptyString).
Proof.
  unfold migrateMasterPassword. erewrite bind_ok by reflexivity.
  destruct (truthy (masterPassword s)) eqn:Hset.
  { exists s. repeat split. left. reflexivity. }
  apply truthy_false in Hset.
  erewrite bind_ok by reflexivity.
  destruct (bool_decide (is_Some (ppk (syncInfo s)))).
  { exists s. repeat split. left. reflexivity. }
  erewrite bind_ok by reflexivity.
  destruct (getActiveMasterKey_of (syncInfo s)) as [mk|].
  2:{ exists s. repeat split. left. reflexivity. }
  erewrite bind_ok by reflexivity.
  destruct (passwordCache s !! mk_id mk) as [cached|]; simpl.
  2:{ exists s. repeat split. left. reflexivity. }
  destruct (truthy cached) eqn:Hcached.
  2:{ exists s. repeat split. left. reflexivity. }
  eexists. split; [reflexivity|]. split; [congruence|].
  right. simpl. apply truthy_true. exact Hcached.
Qed.

(** C7. [migrateMasterPassword] is idempotent: it always returns, and
    run again on the state it leaves it changes nothing, so two runs in
    a row leave the master password and the password cache (and the rest
    of the state) as one run does. *)
Theorem migrateMasterPassword_idempotent (s : State Items) :
  exists s1,
    migrateMasterPassword s = (inr tt, s1) /\
    migrateMasterPassword s1 = (inr tt, s1) /\
    bind migrateMasterPassword (fun _ => migrateMasterPassword) s
    = migrateMasterPassword s.
Proof.
  destruct (migrateMasterPassword_returns s) as (s1 & Hrun & _ & Hafter).
  assert (migrateMasterPassword s1 = (inr tt, s1)) as Hagain.
  { destruct Hafter as [->|Hset]; [exact Hrun|].
    destruct (migrateMasterPassword_returns s1) as (s2 & Hrun2 & Hkeep & _).
    rewrite Hrun2. rewrite (Hkeep Hset). reflexivity. }
  exists s1. split; [exact Hrun|]. split; [exact Hagain|].
  erewrite bind_ok by exact Hrun. rewrite Hagain, Hrun. reflexivity.
Qed.

(** ** Loading the master keys *)

Lemma loadable_frame (s s' : State Items) (mk : MasterKeyEntity) :
  sameStores s s' -> (loadable s' mk <-> loadable s mk).
Proof.
  intros (_ & Hmp & Hcache & _). unfold loadable.
  rewrite !findMasterKeyPassword_reads. simpl. rewrite Hmp, Hcache. reflexivity.
Qed.

Lemma sameStores_refl (s : State Items) : sameStores s s.
Proof. repeat split. Qed.

Lemma sameStores_trans (s1 s2 s3 : State Items) :
  sameStores s1 s2 -> sameStores s2 s3 -> sameStores s1 s3.
Proof.
  intros (H1 & H2 & H3 & H4) (K1 & K2 & K3 & K4).
  repeat split; congruence.
Qed.

(** One turn of the loop: either the key is loaded by this turn, or the
    turn leaves the state alone: when the key was loaded already, when no
    candidate password is found, and when loading throws. *)
Lemma loadOne_cases (active : string) (mk : MasterKeyEntity) (s : State Items) :
  ((mk_id mk ∉ loadedIds s) /\ loadable s mk /\
   exists s', loadOne active mk s = (inr tt, s') /\ sameStores s s' /\
              loadedIds s' = {[ mk_id mk ]} ∪ loadedIds s) \/
  ((mk_id mk ∈ loadedIds s \/ ~ loadable s mk) /\ loadOne active mk s = (inr tt, s)).
Proof.
  unfold loadOne. erewrite bind_ok by reflexivity.
  destruct (bool_decide (mk_id mk ∈ decryptedMasterKeys (service s))) eqn:Hloaded.
  { right. apply bool_decide_eq_true in Hloaded. split; [left; exact Hloaded|reflexivity]. }
  apply bool_decide_eq_false in Hloaded.
  erewrite bind_ok by apply findMasterKeyPassword_reads.
  unfold loadable. rewrite findMasterKeyPassword_reads. simpl.
  destruct (if truthy (masterPassword s) && checkMasterKeyPassword mk (masterPassword s)
            then Some (masterPassword s) else passwordCache s !! mk_id mk)
    as [password|] eqn:Hcandidate; simpl.
  2:{ right. split; [|reflexivity]. right. intros (pw & Hpw & _). discriminate. }
  destruct (truthy password) eqn:Hset; simpl.
  2:{ right. split; [|reflexivity]. right. intros (pw & [= <-] & Htrue & _). congruence. }
  unfold try_catch, loadMasterKey.
  destruct (decryptMasterKeyContent mk password) as [e|] eqn:Hdecrypt.
  { right. split; [|reflexivity]. right. intros (pw & [= <-] & _ & Hnone). congruence. }
  left. split; [exact Hloaded|]. split; [exists password; repeat split; assumption|].
  eexists. split; [reflexivity|]. split; [repeat split|reflexivity].
Qed.

Lemma loadLoop_spec (active : string) (mks : list MasterKeyEntity) (s : State Items) :
  exists s',
    forEach mks (loadOne active) s = (inr tt, s') /\
    sameStores s s' /\
    loadedIds s ⊆ loadedIds s' /\
    (forall mk, mk ∈ mks -> loadable s mk -> mk_id mk ∈ loadedIds s') /\
    (forall i, i ∈ loadedIds s' ->
       i ∈ loadedIds s \/ exists mk, mk ∈ mks /\ mk_id mk = i /\ loadable s mk) /\
    ((forall mk, mk ∈ mks -> mk_id mk ∈ loadedIds s \/ ~ loadable s mk) -> s' = s).
Proof.
  revert s. induction mks as [|mk rest IH]; intros s.
  - exists s. simpl. split; [reflexivity|]. split; [apply sameStores_refl|].
    split; [intros i Hi; exact Hi|]. split; [intros k Hin; inversion Hin|].
    split; [intros i Hi; left; exact Hi|reflexivity].
  - simpl.
    destruct (loadOne_cases active mk s)
      as [(Hnew & Hload & s1 & Hrun & Hsame & Hids)|(Hskip & Hrun)].
    + destruct (IH s1) as (s' & Hrest & Hsame' & Hsub & Hall & Honly & _).
      exists s'. erewrite bind_ok by exact Hrun.
      split; [exact Hrest|]. split; [eapply sameStores_trans; eassumption|].
      split; [intros i Hi; apply Hsub; rewrite Hids; apply elem_of_union_r; exact Hi|].
      split; [|split].
      * intros k Hin Hk. apply elem_of_cons in Hin as [->|Hin].
        { apply Hsub. rewrite Hids. apply elem_of_union_l, elem_of_singleton. reflexivity. }
        apply Hall; [exact Hin|]. apply (loadable_frame s s1); assumption.
      * intros i Hi. destruct (Honly i Hi) as [Hi1|(k & Hin & Hid & Hk)].
        -- rewrite Hids in Hi1. apply elem_of_union in Hi1 as [Hi1|Hi1].
           ++ apply elem_of_singleton in Hi1. right. exists mk.
              split; [left|]. split; [congruence|exact Hload].
           ++ left. exact Hi1.
        -- right. exists k. split; [right; exact Hin|]. split; [exact Hid|].
           apply (loadable_frame s s1); assumption.
      * intros Hnone. exfalso.
        destruct (Hnone mk) as [Hin|Hnot]; [left|contradiction|contradiction].
    + destruct (IH s) as (s' & Hrest & Hsame' & Hsub & Hall & Honly & Hidle).
      exists s'. erewrite bind_ok by exact Hrun.
      split; [exact Hrest|]. split; [exact Hsame'|].
      split; [exact Hsub|]. split; [|split].
      * intros k Hin Hk. apply elem_of_cons in Hin as [->|Hin]; [|auto].
        destruct Hskip as [Hin|Hnot]; [apply Hsub; exact Hin|contradiction].
      * intros i Hi. destruct (Honly i Hi) as [Hi1|(k & Hin & Hid & Hk)].
        -- left. exact Hi1.
        -- right. exists k. split; [right; exact Hin|]. split; assumption.
      * intros Hnone. apply Hidle. intros k Hin. apply Hnone. right. exact Hin.
Qed.

(** C8. [loadMasterKeysFromSettings] always returns normally, whatever
    the loading of single keys throws.  A key whose loading throws does
    not stop the loop: every key for which a candidate password is found
    that decrypts it is loaded at the end, as are the keys loaded before.
    The keys loaded at the end are those and no others, so a key without
    candidate password is passed over; and when every key is either
    loaded already or not loadable, the call changes nothing at all.  The
    registry and the settings are never written. *)
Theorem loadMasterKeysFromSettings_best_effort (s : State Items) :
  exists s',
    loadMasterKeysFromSettings s = (inr tt, s') /\
    sameStores s s' /\
    (forall mk, mk ∈ masterKeys (syncInfo s) ->
       (mk_id mk ∈ loadedIds s -> mk_id mk ∈ loadedIds s') /\
       (loadable s mk -> mk_id mk ∈ loadedIds s')) /\
    (forall i, i ∈ loadedIds s' ->
       i ∈ loadedIds s \/
       exists mk, mk ∈ masterKeys (syncInfo s) /\ mk_id mk = i /\ loadable s mk) /\
    ((forall mk, mk ∈ masterKeys (syncInfo s) ->
        mk_id mk ∈ loadedIds s \/ ~ loadable s mk) -> s' = s).
Proof.
  unfold loadMasterKeysFromSettings.
  erewrite bind_ok by reflexivity. erewrite bind_ok by reflexivity.
  destruct (loadLoop_spec (activeMasterKeyId (syncInfo s)) (masterKeys (syncInfo s)) s)
    as (s' & Hrun & Hsame & Hsub & Hall & Honly & Hidle).
  exists s'. split; [exact Hrun|]. split; [exact Hsame|].
  split; [|split; assumption].
  intros mk Hin. split; [intros Hloaded; apply Hsub; exact Hloaded|apply Hall; exact Hin].
Qed.

(** ** Enabling encryption *)

(** [setupAndEnableEncryption] stores the password it is given when that
    password is not empty, and leaves the stored one alone otherwise. *)
Lemma setupAndEnableEncryption_password
    (masterKey : option MasterKeyEntity) (password : option string) (s : State Items) :
  exists s',
    setupAndEnableEncryption masterKey password s = (inr tt, s') /\
    masterPassword s'
    = (if truthy_opt password then default EmptyString password else masterPassword s).
Proof.
  unfold setupAndEnableEncryption, loadMasterKeysFromSettings.
  erewrite bind_ok by reflexivity.
  destruct (truthy_opt password);
    (erewrite bind_ok by reflexivity);
    (erewrite bind_ok by reflexivity);
    (erewrite bind_ok by reflexivity);
    (erewrite bind_ok by reflexivity);
    match goal with
    | |- exists s', forEach ?mks (loadOne ?a) ?s0 = _ /\ _ =>
        destruct (loadLoop_spec a mks s0) as (s' & Hrun & (_ & Hmp & _) & _)
    end;
    exists s'; (split; [exact Hrun|]); rewrite Hmp; reflexivity.
Qed.

Lemma setupAndEnableEncryption_never_empties
    (masterKey : option MasterKeyEntity) (password : option string) (s s' : State Items) :
  setupAndEnableEncryption masterKey password s = (inr tt, s') ->
  masterPassword s' = EmptyString -> masterPassword s = EmptyString.
Proof.
  destruct (setupAndEnableEncryption_password masterKey password s) as (s1 & Hrun & Hmp).
  rewrite Hrun. intros [= <-]. rewrite Hmp.
  destruct password as [p|]; simpl; [|tauto].
  destruct (truthy p) eqn:Hp; [|tauto].
  apply truthy_true in Hp. intros Hempty. contradiction.
Qed.

Lemma migrateMasterPassword_never_empties (s s' : State Items) :
  migrateMasterPassword s = (inr tt, s') ->
  masterPassword s' = EmptyString -> masterPassword s = EmptyString.
Proof.
  destruct (migrateMasterPassword_returns s) as (s1 & Hrun & _ & Hafter).
  rewrite Hrun. intros [= <-] Hempty.
  destruct Hafter as [->|Hset]; [exact Hempty|contradiction].
Qed.

(** ** The missing-master-key message *)

Lemma removelast_take (l : list string) : removelast l = take (length l - 1) l.
Proof.
  rewrite removelast_firstn_len. f_equal. lia.
Qed.

Lemma disabledCount_le (known : list MasterKeyEntity) (l : list string) :
  disabledCount known l <= length l.
Proof. unfold disabledCount. apply List.filter_length_le. Qed.

(** What the loop leaves of the list: the list shortened at its end by
    as many entries as there are known, disabled keys among the entries
    visited. *)
Lemma missingLoop_take (known : list MasterKeyEntity) (n : nat) (l : list string) :
  n <= length l ->
  missingLoop known n l = take (length l - disabledCount known (take n l)) l.
Proof.
  revert l. induction n as [|i IH]; intros l Hn.
  - simpl. unfold disabledCount. simpl. rewrite take_ge by lia. reflexivity.
  - destruct (lookup_lt_is_Some_2 l i) as [x Hx]; [lia|].
    rewrite (take_S_r _ _ _ Hx). unfold disabledCount.
    rewrite List.filter_app, length_app. fold (disabledCount known (take i l)).
    pose proof (disabledCount_le known (take i l)) as Hle.
    rewrite length_take_le in Hle by lia.
    simpl. rewrite Hx. unfold knownDisabled.
    destruct (find (id_is x) known) as [mk|]; simpl.
    + destruct (masterKeyEnabled mk); simpl.
      * rewrite IH by lia. f_equal. lia.
      * rewrite removelast_take.
        rewrite IH by (rewrite length_take_le by lia; lia).
        rewrite length_take_le by lia.
        rewrite (take_take l i), Nat.min_l by lia.
        rewrite take_take. f_equal. lia.
    + rewrite IH by lia. f_equal. lia.
Qed.

Lemma disabledCount_all (known : list MasterKeyEntity) (l : list string) :
  disabledCount known l = length l <->
  forall flagged, flagged ∈ l -> knownDisabled known flagged = true.
Proof.
  unfold disabledCount. induction l as [|x rest IH]; simpl.
  - split; [intros _ k Hin; inversion Hin|reflexivity].
  - pose proof (List.filter_length_le (knownDisabled known) rest) as Hle.
    destruct (knownDisabled known x) eqn:Hx; simpl.
    + split.
      * intros Hlen k Hin. apply elem_of_cons in Hin as [->|Hin]; [exact Hx|].
        apply IH; [lia|exact Hin].
      * intros Hall. f_equal. apply IH. intros k Hin. apply Hall. right. exact Hin.
    + split; [lia|].
      intros Hall. specialize (Hall x (list_elem_of_here x rest)). congruence.
Qed.

(** The value [showMissingMasterKeyMessage] computes: it warns exactly
    when some master key is known and some flagged id is not the id of a
    known, disabled key, be it the id of an enabled key or of no key. *)
Lemma showMissingMasterKeyMessage_computes (info : SyncInfo) (flagged : list string) :
  showMissingMasterKeyMessage info flagged = true <->
  masterKeys info <> [] /\
  exists i, i ∈ flagged /\ knownDisabled (masterKeys info) i = false.
Proof.
  unfold showMissingMasterKeyMessage.
  destruct (masterKeys info) as [|mk rest] eqn:Hkeys; simpl length.
  { simpl. split; [discriminate|intros [Hne _]; congruence]. }
  change (S (length rest) =? 0)%nat with false. cbv iota.
  rewrite missingLoop_take by lia. rewrite (take_ge flagged (length flagged)) by lia.
  pose proof (disabledCount_le (mk :: rest) flagged) as Hle.
  rewrite length_take_le by lia.
  rewrite negb_true_iff, Nat.eqb_neq.
  split.
  - intros Hpos. split; [discriminate|].
    destruct (decide (Forall (fun i => knownDisabled (mk :: rest) i = true) flagged))
      as [Hall|Hsome].
    + exfalso. apply Hpos.
      assert (disabledCount (mk :: rest) flagged = length flagged) as ->; [|lia].
      apply disabledCount_all. apply Forall_forall. exact Hall.
    + apply not_Forall_Exists in Hsome; [|intros i; apply _].
      apply Exists_exists in Hsome as (i & Hin & Hi).
      exists i. split; [exact Hin|]. apply not_true_is_false. exact Hi.
  - intros (_ & i & Hin & Hi) Hzero.
    assert (disabledCount (mk :: rest) flagged = length flagged) as Hall by lia.
    rewrite disabledCount_all in Hall. rewrite (Hall i Hin) in Hi. discriminate.
Qed.

(** ** Further properties: the missing-master-key message *)

(** X1. [showMissingMasterKeyMessage] keeps silent exactly when no master
    key is known or every flagged id is the id of a known key that is
    disabled (the first key with that id counts). *)
Theorem showMissingMasterKeyMessage_silent (info : SyncInfo) (flagged : list string) :
  showMissingMasterKeyMessage info flagged = false <->
  masterKeys info = [] \/
  forall i, i ∈ flagged ->
    exists mk, find (id_is i) (masterKeys info) = Some mk /\ masterKeyEnabled mk = false.
Proof.
  assert (forall i, knownDisabled (masterKeys info) i = true <->
            exists mk, find (id_is i) (masterKeys info) = Some mk /\
                       masterKeyEnabled mk = false) as Hdisabled.
  { intros i. unfold knownDisabled.
    destruct (find (id_is i) (masterKeys info)) as [mk|].
    - rewrite negb_true_iff. split; [eauto|intros (k & [= <-] & Hk); exact Hk].
    - split; [discriminate|intros (k & Hk & _); discriminate]. }
  rewrite <- not_true_iff_false, showMissingMasterKeyMessage_computes. split.
  - intros Hnot. destruct (decide (masterKeys info = [])) as [Hnil|Hne]; [left; exact Hnil|].
    right. intros i Hin. apply Hdisabled.
    destruct (knownDisabled (masterKeys info) i) eqn:Hi; [reflexivity|].
    exfalso. apply Hnot. split; [exact Hne|]. exists i. auto.
  - intros [Hnil|Hall] (Hne & i & Hin & Hi); [contradiction|].
    specialize (Hall i Hin). apply Hdisabled in Hall. congruence.
Qed.

(** X2. The answer of [showMissingMasterKeyMessage] does not depend on
    the order of the flagged ids, although the loop removes entries from
    the end of the list whatever entry it is looking at. *)
Theorem showMissingMasterKeyMessage_order (info : SyncInfo) (flagged flagged' : list string) :
  flagged ≡ₚ flagged' ->
  showMissingMasterKeyMessage info flagged = showMissingMasterKeyMessage info flagged'.
Proof.
  intros Hperm. apply eq_true_iff_eq.
  rewrite !showMissingMasterKeyMessage_computes.
  split; intros (Hne & i & Hin & Hi); (split; [exact Hne|]); exists i;
    (split; [|exact Hi]).
  - rewrite <- Hperm. exact Hin.
  - rewrite Hperm. exact Hin.
Qed.

(** ** Further properties: loading the master keys *)

(** The run of [loadMasterKeysFromSettings]; a second run on the state it
    leaves changes nothing. *)
Lemma loadMasterKeysFromSettings_run (s : State Items) :
  exists s',
    loadMasterKeysFromSettings s = (inr tt, s') /\
    sameStores s s' /\
    loadedIds s ⊆ loadedIds s' /\
    (forall mk, mk ∈ masterKeys (syncInfo s) -> loadable s mk -> mk_id mk ∈ loadedIds s') /\
    loadMasterKeysFromSettings s' = (inr tt, s').
Proof.
  unfold loadMasterKeysFromSettings.
  erewrite bind_ok by reflexivity. erewrite bind_ok by reflexivity.
  destruct (loadLoop_spec (activeMasterKeyId (syncInfo s)) (masterKeys (syncInfo s)) s)
    as (s' & Hrun & Hsame & Hsub & Hall & _ & _).
  exists s'. split; [exact Hrun|]. split; [exact Hsame|]. split; [exact Hsub|].
  split; [exact Hall|].
  erewrite bind_ok by reflexivity. erewrite bind_ok by reflexivity.
  destruct Hsame as (Hinfo & Hrest). rewrite Hinfo.
  destruct (loadLoop_spec (activeMasterKeyId (syncInfo s)) (masterKeys (syncInfo s)) s')
    as (s2 & Hrun2 & _ & _ & _ & _ & Hidle).
  rewrite Hrun2. f_equal. apply Hidle. intros mk Hin.
  destruct (decide (mk_id mk ∈ loadedIds s')) as [Hloaded|Hnot]; [left; exact Hloaded|].
  right. intros Hload. apply Hnot, Hall; [exact Hin|].
  apply (loadable_frame s s'); [|exact Hload]. split; assumption.
Qed.

(** X3. [loadMasterKeysFromSettings] is idempotent: run again on the
    state it leaves, it loads nothing more and changes nothing. *)
Theorem loadMasterKeysFromSettings_idempotent (s : State Items) :
  exists s',
    loadMasterKeysFromSettings s = (inr tt, s') /\
    loadMasterKeysFromSettings s' = (inr tt, s').
Proof.
  destruct (loadMasterKeysFromSettings_run s) as (s' & Hrun & _ & _ & _ & Hagain).
  exists s'. split; assumption.
Qed.




(** ** Further properties: migration of the master password *)

Lemma purgeLoop_lookup (entries : list (string * string)) (p : string)
    (cache : gmap string string) (k v : string) :
  purgeLoop entries p cache !! k = Some v <->
  cache !! k = Some v /\ (k, p) ∉ entries.
Proof.
  revert cache. induction entries as [|[k0 v0] rest IH]; intros cache; simpl.
  - split; [intros H; split; [exact H|apply not_elem_of_nil]|intros [H _]; exact H].
  - rewrite IH, not_elem_of_cons.
    destruct (String.eqb v0 p) eqn:Hv.
    + apply String.eqb_eq in Hv. subst v0. rewrite lookup_delete_Some. split.
      * intros [[Hne Hk] Hrest]. split; [exact Hk|]. split; [congruence|exact Hrest].
      * intros [Hk [Hne Hrest]]. split; [split; [congruence|exact Hk]|exact Hrest].
    + apply String.eqb_neq in Hv. split.
      * intros [Hk Hrest]. split; [exact Hk|]. split; [congruence|exact Hrest].
      * intros [Hk [_ Hrest]]. split; assumption.
Qed.

Lemma migrateMasterPassword_migrates (s : State Items) (mk : MasterKeyEntity) (p : string) :
  masterPassword s = EmptyString ->
  ppk (syncInfo s) = None ->
  getActiveMasterKey_of (syncInfo s) = Some mk ->
  passwordCache s !! mk_id mk = Some p ->
  p <> EmptyString ->
  migrateMasterPassword s
  = (inr tt,
     set_passwordCache (purgeLoop (map_to_list (passwordCache s)) p (passwordCache s))
       (set_masterPassword p s)).
Proof.
  intros Hmp Hppk Hactive Hcached Hp. apply truthy_true in Hp.
  unfold migrateMasterPassword. erewrite bind_ok by reflexivity. rewrite Hmp. simpl.
  erewrite bind_ok by reflexivity. rewrite Hppk.
  rewrite bool_decide_eq_false_2 by (intros [x Hx]; discriminate).
  erewrite bind_ok by reflexivity. rewrite Hactive.
  erewrite bind_ok by reflexivity. rewrite Hcached. simpl. rewrite Hp.
  reflexivity.
Qed.

(** X5. When no master password is set, no key pair exists and a
    non-empty password is cached for the active key, [migrateMasterPassword]
    makes that password the master password and removes from the password
    cache exactly the entries that hold it; the other entries, the sync
    info and the service stay as they are. *)
Theorem migrateMasterPassword_promotes (s : State Items) (mk : MasterKeyEntity) (p : string) :
  masterPassword s = EmptyString ->
  ppk (syncInfo s) = None ->
  getActiveMasterKey_of (syncInfo s) = Some mk ->
  passwordCache s !! mk_id mk = Some p ->
  p <> EmptyString ->
  exists s',
    migrateMasterPassword s = (inr tt, s') /\
    masterPassword s' = p /\
    (forall k v, passwordCache s' !! k = Some v <-> passwordCache s !! k = Some v /\ v <> p) /\
    syncInfo s' = syncInfo s /\ service s' = service s /\ items s' = items s.
Proof.
  intros Hmp Hppk Hactive Hcached Hp.
  eexists. split; [apply (migrateMasterPassword_migrates s mk p); assumption|].
  simpl. split; [reflexivity|]. split; [|repeat split].
  intros k v. rewrite purgeLoop_lookup, elem_of_map_to_list. split.
  - intros [Hk Hnot]. split; [exact Hk|]. intros ->. contradiction.
  - intros [Hk Hne]. split; [exact Hk|]. intros Hkp. congruence.
Qed.

(** X6. [migrateMasterPassword] leaves the state as it is exactly when
    a master password is set, or a key pair exists, or there is no active
    key, or no password or an empty one is cached for the active key. *)
Theorem migrateMasterPassword_pending (s : State Items) :
  migrateMasterPassword s = (inr tt, s) <->
  masterPassword s <> EmptyString \/
  is_Some (ppk (syncInfo s)) \/
  getActiveMasterKey_of (syncInfo s) = None \/
  (exists mk, getActiveMasterKey_of (syncInfo s) = Some mk /\
              truthy_opt (passwordCache s !! mk_id mk) = false).
Proof.
  split.
  - intros Hrun.
    destruct (decide (masterPassword s = EmptyString)) as [Hmp|Hmp]; [|left; exact Hmp].
    destruct (ppk (syncInfo s)) as [p|] eqn:Hppk; [right; left; eexists; reflexivity|].
    destruct (getActiveMasterKey_of (syncInfo s)) as [mk|] eqn:Hactive;
      [|right; right; left; reflexivity].
    right. right. right. exists mk. split; [reflexivity|].
    destruct (passwordCache s !! mk_id mk) as [p|] eqn:Hcached; [|reflexivity].
    simpl. destruct (truthy p) eqn:Hp; [|reflexivity].
    apply truthy_true in Hp.
    rewrite (migrateMasterPassword_migrates s mk p Hmp Hppk Hactive Hcached Hp) in Hrun.
    injection Hrun as Hstate. apply (f_equal masterPassword) in Hstate.
    simpl in Hstate. congruence.
  - intros Hcases. unfold migrateMasterPassword. erewrite bind_ok by reflexivity.
    destruct (truthy (masterPassword s)) eqn:Hset; [reflexivity|].
    apply truthy_false in Hset.
    erewrite bind_ok by reflexivity.
    destruct (bool_decide (is_Some (ppk (syncInfo s)))) eqn:Hppk; [reflexivity|].
    apply bool_decide_eq_false in Hppk.
    erewrite bind_ok by reflexivity.
    destruct (getActiveMasterKey_of (syncInfo s)) as [mk|] eqn:Hactive; [|reflexivity].
    erewrite bind_ok by reflexivity.
    destruct Hcases as [Hne|[Hsome|[Hnone|(k & [= <-] & Hcached)]]];
      [contradiction|contradiction|discriminate|].
    cbv zeta. rewrite Hcached. reflexivity.
Qed.

(** X7. Migration does not verify the password it promotes.  For the
    active key, [findMasterKeyPassword] returns the cached password before
    the migration; after it, it returns that password if the password
    verifies against the key and nothing at all if it does not, the cache
    entry being gone. *)
Theorem migrateMasterPassword_then_find (s : State Items) (mk : MasterKeyEntity) (p : string) :
  masterPassword s = EmptyString ->
  ppk (syncInfo s) = None ->
  getActiveMasterKey_of (syncInfo s) = Some mk ->
  passwordCache s !! mk_id mk = Some p ->
  p <> EmptyString ->
  exists s',
    migrateMasterPassword s = (inr tt, s') /\
    findMasterKeyPassword mk s = (inr (Some p), s) /\
    findMasterKeyPassword mk s'
    = (inr (if checkMasterKeyPassword mk p then Some p else None), s').
Proof.
  intros Hmp Hppk Hactive Hcached Hp.
  eexists. split; [apply (migrateMasterPassword_migrates s mk p); assumption|].
  rewrite !findMasterKeyPassword_reads. simpl. rewrite Hmp. simpl.
  split; [rewrite Hcached; reflexivity|].
  apply truthy_true in Hp. rewrite Hp. simpl.
  destruct (checkMasterKeyPassword mk p); [reflexivity|].
  f_equal. f_equal.
  destruct (purgeLoop (map_to_list (passwordCache s)) p (passwordCache s) !! mk_id mk)
    as [v|] eqn:Hv; [|reflexivity].
  apply purgeLoop_lookup in Hv as [Hk Hnot].
  exfalso. apply Hnot. apply elem_of_map_to_list. congruence.
Qed.

(** ** Further properties: reading the master password *)

Lemma getMasterPasswordStatus_reads (s : State Items) :
  getMasterPasswordStatus s
  = (inr (if truthy (masterPassword s)
          then match fst (masterPasswordIsValid (masterPassword s) s) with
               | inl _ => Loaded
               | inr true => Valid
               | inr false => Invalid
               end
          else NotSet), s).
Proof.
  unfold getMasterPasswordStatus, getMasterPassword.
  erewrite bind_ok by (erewrite bind_ok by reflexivity; rewrite andb_false_r; reflexivity).
  destruct (truthy (masterPassword s)) eqn:Hset; simpl; [|reflexivity].
  unfold try_catch, bind. rewrite masterPasswordIsValid_reads. simpl.
  destruct (ppk (syncInfo s)) as [p|].
  { destruct (ppkPasswordIsValid p (masterPassword s)); reflexivity. }
  destruct (getActiveMasterKey_of (syncInfo s)) as [mk|].
  { destruct (checkMasterKeyPassword mk (masterPassword s)); reflexivity. }
  destruct (latest_of (masterKeys (syncInfo s)) None) as [mk|]; [|reflexivity].
  destruct (checkMasterKeyPassword mk (masterPassword s)); reflexivity.
Qed.

(** X8. [getMasterPassword] with [throwIfNotSet] never hands out an empty
    password: what it returns is the stored master password and is not
    empty, and when it throws, the error has the code
    [undefinedMasterPassword] and no master password is stored.  It
    throws exactly when [getMasterPasswordStatus] is [NotSet]. *)
Theorem getMasterPassword_never_empty (s : State Items) :
  (forall password s',
     getMasterPassword true s = (inr password, s') ->
     password <> EmptyString /\ password = masterPassword s /\ s' = s) /\
  (forall e s',
     getMasterPassword true s = (inl e, s') ->
     has_code "undefinedMasterPassword" e = true /\
     masterPassword s = EmptyString /\ s' = s) /\
  ((exists e, getMasterPassword true s = (inl e, s)) <->
   getMasterPasswordStatus s = (inr NotSet, s)).
Proof.
  rewrite getMasterPasswordStatus_reads.
  unfold getMasterPassword. erewrite bind_ok by reflexivity. rewrite andb_true_r.
  destruct (truthy (masterPassword s)) eqn:Hset; simpl.
  - apply truthy_true in Hset. split; [|split].
    + intros password s' [= <- <-]. repeat split. exact Hset.
    + intros e s' Hthrow. discriminate.
    + split; [intros [e Hthrow]; discriminate|].
      destruct (fst (masterPasswordIsValid (masterPassword s) s)) as [e|[|]];
        intros Hstatus; discriminate.
  - apply truthy_false in Hset. split; [|split].
    + intros password s' Hret. discriminate.
    + intros e s' [= <- <-]. repeat split. exact Hset.
    + split; [reflexivity|intros _; eexists; reflexivity].
Qed.

(** ** Further properties: the password-change transaction *)

Lemma reencryptLoop_pure mks cur new acc (s : State Items) :
  reencryptLoop mks cur new acc s
  = (match reencryptAll cur new mks with
     | inl e => inl e
     | inr rs => inr (acc ++ rs)%list
     end, s).
Proof.
  revert acc. induction mks as [|mk rest IH]; intros acc; simpl.
  - rewrite app_nil_r. reflexivity.
  - unfold bind at 1. unfold try_catch, bind, call.
    destruct (reencryptMasterKey mk cur new) as [e|r]; simpl; [reflexivity|].
    rewrite IH. destruct (reencryptAll cur new rest) as [e|rs]; [reflexivity|].
    rewrite <- app_assoc. reflexivity.
Qed.

Lemma forEach_save (rs : list MasterKeyEntity) (s : State Items) :
  forEach rs MasterKey_save s
  = (inr tt,
     set_syncInfo
       (fun i => mkSyncInfo (e2ee i) (activeMasterKeyId i) (saveAll rs (masterKeys i)) (ppk i))
       s).
Proof.
  revert s. induction rs as [|r rest IH]; intros s; simpl.
  - destruct s as [[] ? ? ? ?]. reflexivity.
  - erewrite bind_ok by reflexivity. rewrite IH. reflexivity.
Qed.

Lemma updateMasterPassword_run (s : State Items) (cur new : string) (hook : option (M unit)) :
  updateMasterPassword cur new hook s
  = match changeOutcome cur new s with
    | (inl e, s') => (inl e, s')
    | (inr _, s') =>
        match hook with
        | Some h => h s'
        | None => (inr tt, s')
        end
    end.
Proof.
  unfold updateMasterPassword, changeOutcome.
  erewrite bind_ok by reflexivity.
  destruct (bool_decide (is_Some (ppk (syncInfo s)))
            || negb (length (masterKeys (syncInfo s)) =? 0)%nat).
  2:{ erewrite bind_ok by reflexivity. erewrite bind_ok by reflexivity.
      destruct hook; reflexivity. }
  destruct (truthy cur); simpl; [|reflexivity].
  unfold bind at 1. unfold bind at 1. unfold localSyncInfo at 1, gets at 1.
  unfold bind at 1. rewrite reencryptLoop_pure.
  destruct (reencryptAll cur new (masterKeys (syncInfo s))) as [e|rs]; [reflexivity|].
  simpl app. unfold bind at 1. unfold localSyncInfo at 1, gets at 1.
  destruct (ppk (syncInfo s)) as [p|] eqn:Hp.
  - unfold bind at 1. unfold try_catch, bind at 1, call.
    destruct (pkReencryptPrivateKey p cur new) as [e|p']; [reflexivity|].
    simpl. unfold bind at 1. rewrite forEach_save.
    destruct hook; reflexivity.
  - unfold bind at 1. simpl. unfold bind at 1. rewrite forEach_save.
    destruct hook; reflexivity.
Qed.

Lemma reencryptAll_inr cur new (mks rs : list MasterKeyEntity) :
  reencryptAll cur new mks = inr rs <->
  Forall2 (fun mk r => reencryptMasterKey mk cur new = inr r) mks rs.
Proof.
  revert rs. induction mks as [|mk rest IH]; intros rs; simpl.
  - split; [intros [= <-]; constructor|intros H; inversion H; reflexivity].
  - destruct (reencryptMasterKey mk cur new) as [e|r] eqn:Hmk.
    + split; [discriminate|]. intros H. inversion H; subst. congruence.
    + destruct (reencryptAll cur new rest) as [e|rs'] eqn:Hrest.
      * split; [discriminate|]. intros H. inversion H as [|? r0 ? rs0 Hr Hall]; subst.
        apply IH in Hall. discriminate.
      * split.
        -- intros [= <-]. constructor; [exact Hmk|]. apply IH. reflexivity.
        -- intros H. inversion H as [|? r0 ? rs0 Hr Hall]; subst.
           apply IH in Hall. congruence.
Qed.

Lemma reencryptAll_inl cur new (mks : list MasterKeyEntity) (e : JsError) :
  reencryptAll cur new mks = inl e ->
  exists mk e0, mk ∈ mks /\ reencryptMasterKey mk cur new = inl e0.
Proof.
  induction mks as [|mk rest IH]; simpl; [discriminate|].
  destruct (reencryptMasterKey mk cur new) as [e0|r] eqn:Hmk.
  - intros _. exists mk, e0. split; [left|exact Hmk].
  - destruct (reencryptAll cur new rest) as [e1|rs]; [|discriminate].
    intros [= <-]. destruct IH as (k & e0 & Hin & Hk); [reflexivity|].
    exists k, e0. split; [right; exact Hin|exact Hk].
Qed.

Lemma reencryptAll_first cur new (pre : list MasterKeyEntity) mk post e :
  (forall k, k ∈ pre -> exists r, reencryptMasterKey k cur new = inr r) ->
  reencryptMasterKey mk cur new = inl e ->
  reencryptAll cur new (pre ++ mk :: post) = inl (reencryptKeyMessage mk e).
Proof.
  intros Hpre Hmk. induction pre as [|k pre IH]; simpl.
  - rewrite Hmk. reflexivity.
  - destruct (Hpre k) as [r Hr]; [left|]. rewrite Hr.
    rewrite IH; [reflexivity|]. intros k' Hin. apply Hpre. right. exact Hin.
Qed.

Lemma Forall2_elem_l {A B} (P : A -> B -> Prop) (l : list A) (k : list B) (x : A) :
  Forall2 P l k -> x ∈ l -> exists y, y ∈ k /\ P x y.
Proof.
  induction 1 as [|a b l k Hab Hrest IH]; intros Hin; [inversion Hin|].
  apply elem_of_cons in Hin as [->|Hin].
  - exists b. split; [left|exact Hab].
  - destruct (IH Hin) as (y & Hy & Hxy). exists y. split; [right; exact Hy|exact Hxy].
Qed.

Lemma Forall2_elem_r {A B} (P : A -> B -> Prop) (l : list A) (k : list B) (y : B) :
  Forall2 P l k -> y ∈ k -> exists x, x ∈ l /\ P x y.
Proof.
  induction 1 as [|a b l k Hab Hrest IH]; intros Hin; [inversion Hin|].
  apply elem_of_cons in Hin as [->|Hin].
  - exists a. split; [left|exact Hab].
  - destruct (IH Hin) as (x & Hx & Hxy). exists x. split; [right; exact Hx|exact Hxy].
Qed.

Lemma updateMasterPassword_guard_true (info : SyncInfo) :
  bool_decide (is_Some (ppk info)) || negb (length (masterKeys info) =? 0)%nat = true
  <-> masterKeys info <> [] \/ is_Some (ppk info).
Proof.
  rewrite orb_true_iff, bool_decide_eq_true, negb_true_iff, Nat.eqb_neq.
  rewrite length_zero_iff_nil. tauto.
Qed.

(** X9. Without hook, [updateMasterPassword] succeeds exactly when no
    re-encryption fails and, if a master key or a key pair exists, the
    current password is given. *)
Theorem updateMasterPassword_succeeds_iff (s : State Items) (cur new : string) :
  (exists s', updateMasterPassword cur new None s = (inr tt, s')) <->
  ~ reencryptionFails cur new (syncInfo s) /\
  (masterKeys (syncInfo s) <> [] \/ is_Some (ppk (syncInfo s)) -> cur <> EmptyString).
Proof.
  rewrite updateMasterPassword_run. unfold changeOutcome, reencryptionFails.
  destruct (bool_decide (is_Some (ppk (syncInfo s)))
            || negb (length (masterKeys (syncInfo s)) =? 0)%nat) eqn:Hguard.
  2:{ apply updateMasterPassword_guard in Hguard as [Hp Hk]. rewrite Hp, Hk. split.
      - intros _. split.
        + intros [(mk & e & Hin & _)|(p & e & Hsome & _)]; [inversion Hin|discriminate].
        + intros [Hne|[p Hsome]]; [contradiction|discriminate].
      - intros _. eexists. reflexivity. }
  apply updateMasterPassword_guard_true in Hguard.
  destruct (truthy cur) eqn:Hcur; simpl.
  2:{ apply truthy_false in Hcur. split; [intros [s' H]; discriminate|].
      intros [_ Hgiven]. exfalso. apply Hgiven; assumption. }
  apply truthy_true in Hcur.
  destruct (reencryptAll cur new (masterKeys (syncInfo s))) as [e|rs] eqn:Hall.
  { split; [intros [s' H]; discriminate|]. intros [Hnot _]. exfalso. apply Hnot.
    left. apply reencryptAll_inl in Hall. exact Hall. }
  apply reencryptAll_inr in Hall.
  assert (forall mk e, mk ∈ masterKeys (syncInfo s) ->
            reencryptMasterKey mk cur new <> inl e) as Hkeys.
  { intros mk e Hin. destruct (Forall2_elem_l _ _ _ mk Hall Hin) as (r & _ & Hr).
    congruence. }
  destruct (ppk (syncInfo s)) as [p|].
  - destruct (pkReencryptPrivateKey p cur new) as [e|p'] eqn:Hpair.
    + split; [intros [s' H]; discriminate|]. intros [Hnot _]. exfalso. apply Hnot.
      right. exists p, e. split; [reflexivity|exact Hpair].
    + split; [|intros _; eexists; reflexivity].
      intros _. split; [|intros _; exact Hcur].
      intros [(mk & e & Hin & Hmk)|(q & e & [= <-] & Hq)];
        [exact (Hkeys mk e Hin Hmk)|congruence].
  - split; [|intros _; eexists; reflexivity].
    intros _. split; [|intros _; exact Hcur].
    intros [(mk & e & Hin & Hmk)|(q & e & Hsome & _)];
      [exact (Hkeys mk e Hin Hmk)|discriminate].
Qed.

(** X10. When the current password is given and a master key cannot be
    re-encrypted, the error [updateMasterPassword] raises is the error of
    the first such key, with the id of that key and the advice on the
    password put before its message and with its code kept; the keys
    after it are not tried and the state is unchanged. *)
Theorem updateMasterPassword_first_failure
    (s : State Items) (cur new : string) (hook : option (M unit))
    (pre : list MasterKeyEntity) (mk : MasterKeyEntity) (post : list MasterKeyEntity)
    (e : JsError) :
  cur <> EmptyString ->
  masterKeys (syncInfo s) = (pre ++ mk :: post)%list ->
  (forall k, k ∈ pre -> exists r, reencryptMasterKey k cur new = inr r) ->
  reencryptMasterKey mk cur new = inl e ->
  updateMasterPassword cur new hook s
  = (inl (mkError
            ("Master key " +:+ mk_id mk +:+
             " could not be reencrypted - this is most likely due to an incorrect password. Please try again. Error was: "
             +:+ message e)
            (code e)), s).
Proof.
  intros Hcur Hkeys Hpre Hmk. rewrite updateMasterPassword_run. unfold changeOutcome.
  rewrite (proj2 (updateMasterPassword_guard_true (syncInfo s)))
    by (left; rewrite Hkeys; destruct pre; discriminate).
  apply truthy_true in Hcur. rewrite Hcur. simpl negb. cbv iota.
  rewrite Hkeys, (reencryptAll_first cur new pre mk post e Hpre Hmk). reflexivity.
Qed.

(** X11. When the current password is given and every master key is
    re-encrypted but the key pair is not, [updateMasterPassword] raises
    the error of the key pair with the advice on the password put before
    its message, and saves none of the re-encrypted keys. *)
Theorem updateMasterPassword_pair_failure
    (s : State Items) (cur new : string) (hook : option (M unit))
    (p : PublicPrivateKeyPair) (e : JsError) :
  cur <> EmptyString ->
  (forall k, k ∈ masterKeys (syncInfo s) -> exists r, reencryptMasterKey k cur new = inr r) ->
  ppk (syncInfo s) = Some p ->
  pkReencryptPrivateKey p cur new = inl e ->
  updateMasterPassword cur new hook s
  = (inl (mkError
            ("Private key could not be reencrypted - this is most likely due to an incorrect password. Please try again. Error was: "
             +:+ message e)
            (code e)), s).
Proof.
  intros Hcur Hkeys Hp Hpair. rewrite updateMasterPassword_run. unfold changeOutcome.
  rewrite (proj2 (updateMasterPassword_guard_true (syncInfo s)))
    by (right; rewrite Hp; eexists; reflexivity).
  apply truthy_true in Hcur. rewrite Hcur. simpl negb. cbv iota.
  destruct (reencryptAll cur new (masterKeys (syncInfo s))) as [e0|rs] eqn:Hall.
  { apply reencryptAll_inl in Hall as (k & e1 & Hin & Hk).
    destruct (Hkeys k Hin) as [r Hr]. congruence. }
  rewrite Hp, Hpair. reflexivity.
Qed.

(** X12. Whatever its outcome, [updateMasterPassword] without hook
    touches neither the password cache, nor the encryption service, nor
    the item store, nor the enabled flag and the active key id of the
    sync info. *)
Theorem updateMasterPassword_frame (s : State Items) (cur new : string) :
  passwordCache (snd (updateMasterPassword cur new None s)) = passwordCache s /\
  service (snd (updateMasterPassword cur new None s)) = service s /\
  items (snd (updateMasterPassword cur new None s)) = items s /\
  e2ee (syncInfo (snd (updateMasterPassword cur new None s))) = e2ee (syncInfo s) /\
  activeMasterKeyId (syncInfo (snd (updateMasterPassword cur new None s)))
  = activeMasterKeyId (syncInfo s).
Proof.
  rewrite updateMasterPassword_run. unfold changeOutcome.
  destruct (bool_decide (is_Some (ppk (syncInfo s)))
            || negb (length (masterKeys (syncInfo s)) =? 0)%nat); [|repeat split].
  destruct (negb (truthy cur)); [repeat split|].
  destruct (reencryptAll cur new (masterKeys (syncInfo s))) as [e|rs]; [repeat split|].
  destruct (ppk (syncInfo s)) as [p|]; [|repeat split].
  destruct (pkReencryptPrivateKey p cur new) as [e|p']; repeat split.
Qed.

Lemma save_in_replace (r k : MasterKeyEntity) (done rest : list MasterKeyEntity) :
  mk_id r = mk_id k ->
  (forall d, d ∈ done -> mk_id d <> mk_id r) ->
  save_in r (done ++ k :: rest) = (done ++ r :: rest)%list.
Proof.
  intros Hid Hdone. induction done as [|d done IH]; simpl.
  - unfold id_is. rewrite Hid, String.eqb_refl. reflexivity.
  - unfold id_is at 1. rewrite (proj2 (String.eqb_neq _ _)) by (apply Hdone; left).
    rewrite IH; [reflexivity|]. intros d' Hin. apply Hdone. right. exact Hin.
Qed.

Lemma saveAll_replace (ks rs done : list MasterKeyEntity) :
  Forall2 (fun k r => mk_id r = mk_id k) ks rs ->
  NoDup (map mk_id (done ++ ks)) ->
  saveAll rs (done ++ ks) = (done ++ rs)%list.
Proof.
  intros Hall. revert done. induction Hall as [|k r ks rs Hid Hrest IH]; intros done Hnodup.
  - reflexivity.
  - unfold saveAll. simpl. fold (saveAll rs (save_in r (done ++ k :: ks))).
    rewrite save_in_replace.
    + rewrite (cons_middle r done ks), app_assoc. rewrite IH.
      * rewrite <- app_assoc. reflexivity.
      * rewrite <- app_assoc. simpl. rewrite map_app in *. simpl in *.
        rewrite Hid. exact Hnodup.
    + exact Hid.
    + intros d Hin Heq. rewrite map_app in Hnodup. apply NoDup_app in Hnodup as (_ & Hsep & _).
      apply (Hsep (mk_id d)); [apply list_elem_of_fmap_2; exact Hin|].
      simpl. rewrite Heq, Hid. left.
Qed.

(** The sync info and the password after a change that went through,
    when the ids of the known keys are distinct and re-encryption keeps
    the id of a key. *)
Lemma updateMasterPassword_result (s s' : State Items) (cur new : string) :
  NoDup (map mk_id (masterKeys (syncInfo s))) ->
  (forall mk r, reencryptMasterKey mk cur new = inr r -> mk_id r = mk_id mk) ->
  updateMasterPassword cur new None s = (inr tt, s') ->
  Forall2 (fun mk r => reencryptMasterKey mk cur new = inr r)
    (masterKeys (syncInfo s)) (masterKeys (syncInfo s')) /\
  match ppk (syncInfo s) with
  | Some p => exists p', pkReencryptPrivateKey p cur new = inr p' /\
                         ppk (syncInfo s') = Some p'
  | None => ppk (syncInfo s') = None
  end /\
  masterPassword s' = new.
Proof.
  intros Hnodup Hid. rewrite updateMasterPassword_run. unfold changeOutcome.
  destruct (bool_decide (is_Some (ppk (syncInfo s)))
            || negb (length (masterKeys (syncInfo s)) =? 0)%nat) eqn:Hguard.
  2:{ apply updateMasterPassword_guard in Hguard as [Hp Hk]. intros [= <-]. simpl.
      rewrite Hp, Hk. repeat split. constructor. }
  destruct (negb (truthy cur)); [discriminate|].
  destruct (reencryptAll cur new (masterKeys (syncInfo s))) as [e|rs] eqn:Hall;
    [discriminate|].
  apply reencryptAll_inr in Hall.
  assert (saveAll rs (masterKeys (syncInfo s)) = rs) as Hsaved.
  { apply (saveAll_replace (masterKeys (syncInfo s)) rs []); [|exact Hnodup].
    eapply Forall2_impl; [exact Hall|]. intros mk r Hr. exact (Hid mk r Hr). }
  destruct (ppk (syncInfo s)) as [p|] eqn:Hp.
  - destruct (pkReencryptPrivateKey p cur new) as [e|p'] eqn:Hpair; [discriminate|].
    intros [= <-]. simpl. rewrite Hsaved.
    split; [exact Hall|]. split; [|reflexivity]. exists p'. split; reflexivity.
  - intros [= <-]. simpl. rewrite Hsaved, Hp. repeat split. exact Hall.
Qed.

(** X13. When the ids of the known keys are distinct and re-encryption
    keeps the id of a key, a password change that succeeds leaves in the
    registry, in the same order, the re-encryption of every key it held,
    replaces the key pair by its re-encryption, and stores the new
    password. *)
Theorem updateMasterPassword_registry (s s' : State Items) (cur new : string) :
  NoDup (map mk_id (masterKeys (syncInfo s))) ->
  (forall mk r, reencryptMasterKey mk cur new = inr r -> mk_id r = mk_id mk) ->
  updateMasterPassword cur new None s = (inr tt, s') ->
  Forall2 (fun mk r => reencryptMasterKey mk cur new = inr r)
    (masterKeys (syncInfo s)) (masterKeys (syncInfo s')) /\
  match ppk (syncInfo s) with
  | Some p => exists p', pkReencryptPrivateKey p cur new = inr p' /\
                         ppk (syncInfo s') = Some p'
  | None => ppk (syncInfo s') = None
  end /\
  masterPassword s' = new.
Proof. apply updateMasterPassword_result. Qed.

(** X14. Under the same conditions, if moreover a re-encrypted key and a
    re-encrypted key pair verify against the new password, then after a
    change to a non-empty password in a state with a master key or a key
    pair, [getMasterPasswordStatus] is [Valid]. *)
Theorem updateMasterPassword_then_valid (s s' : State Items) (cur new : string) :
  NoDup (map mk_id (masterKeys (syncInfo s))) ->
  (forall mk r, reencryptMasterKey mk cur new = inr r ->
     mk_id r = mk_id mk /\ checkMasterKeyPassword r new = true) ->
  (forall p p', pkReencryptPrivateKey p cur new = inr p' ->
     ppkPasswordIsValid p' new = true) ->
  masterKeys (syncInfo s) <> [] \/ is_Some (ppk (syncInfo s)) ->
  new <> EmptyString ->
  updateMasterPassword cur new None s = (inr tt, s') ->
  getMasterPasswordStatus s' = (inr Valid, s').
Proof.
  intros Hnodup Hkey Hpair Hexists Hnew Hrun.
  destruct (updateMasterPassword_result s s' cur new Hnodup
              (fun mk r Hr => proj1 (Hkey mk r Hr)) Hrun) as (Hkeys & Hppk & Hmp).
  assert (forall r, r ∈ masterKeys (syncInfo s') -> checkMasterKeyPassword r new = true)
    as Hchecked.
  { intros r Hin. destruct (Forall2_elem_r _ _ _ r Hkeys Hin) as (mk & _ & Hr).
    exact (proj2 (Hkey mk r Hr)). }
  rewrite getMasterPasswordStatus_reads, masterPasswordIsValid_reads, Hmp.
  apply truthy_true in Hnew. rewrite Hnew. simpl.
  destruct (ppk (syncInfo s)) as [p|] eqn:Hp.
  { destruct Hppk as (p' & Hp' & ->). rewrite (Hpair p p' Hp'). reflexivity. }
  rewrite Hppk.
  destruct (getActiveMasterKey_of (syncInfo s')) as [active|] eqn:Hactive.
  { apply getActiveMasterKey_of_known in Hactive as (Hin & _).
    rewrite (Hchecked active Hin). reflexivity. }
  destruct (latest_of_nonempty (masterKeys (syncInfo s'))) as (r & Hr & Hin & _).
  { destruct Hexists as [Hne|[q Hq]]; [|discriminate].
    intros Hnil. rewrite Hnil in Hkeys. inversion Hkeys. congruence. }
  rewrite Hr, (Hchecked r Hin). reflexivity.
Qed.

(** ** Further properties: enabling and disabling encryption *)

(** X15. [setupAndEnableEncryption] always returns.  It enables
    encryption, makes the given key the active one when a key with a
    non-empty id is given and keeps the active id otherwise, stores the
    given password when it is not empty and keeps the stored one
    otherwise, marks the items, and leaves the keys, the key pair and the
    password cache as they are; no loaded key is unloaded. *)
Theorem setupAndEnableEncryption_effects
    (masterKey : option MasterKeyEntity) (password : option string) (s : State Items) :
  exists s',
    setupAndEnableEncryption masterKey password s = (inr tt, s') /\
    e2ee (syncInfo s') = true /\
    activeMasterKeyId (syncInfo s')
    = (match masterKey with
       | Some mk => if truthy (mk_id mk) then mk_id mk else activeMasterKeyId (syncInfo s)
       | None => activeMasterKeyId (syncInfo s)
       end) /\
    masterPassword s'
    = (match password with
       | Some p => if truthy p then p else masterPassword s
       | None => masterPassword s
       end) /\
    masterKeys (syncInfo s') = masterKeys (syncInfo s) /\
    ppk (syncInfo s') = ppk (syncInfo s) /\
    passwordCache s' = passwordCache s /\
    items s' = markAllNonEncryptedForSync (items s) /\
    loadedIds s ⊆ loadedIds s'.
Proof.
  unfold setupAndEnableEncryption.
  erewrite bind_ok by reflexivity.
  destruct password as [p|]; simpl truthy_opt; [destruct (truthy p)|];
    (erewrite bind_ok by reflexivity);
    (erewrite bind_ok by reflexivity);
    match goal with
    | |- exists s', loadMasterKeysFromSettings ?s0 = _ /\ _ =>
        destruct (loadMasterKeysFromSettings_run s0)
          as (s' & Hrun & (Hinfo & Hmp & Hcache & Hitems) & Hsub & _)
    end;
    exists s'; (split; [exact Hrun|]);
    rewrite Hinfo, Hmp, Hcache, Hitems; simpl;
    destruct masterKey as [mk|]; simpl; repeat split; exact Hsub.
Qed.

(** X16. [setupAndDisableEncryption] always returns, whatever is still
    encrypted.  It disables encryption, asks for a full synchronisation
    of the items, and leaves the active key id, the keys, the key pair,
    the master password and the password cache as they are; the keys
    loaded in the service stay loaded. *)
Theorem setupAndDisableEncryption_effects (s : State Items) :
  exists s',
    setupAndDisableEncryption s = (inr tt, s') /\
    e2ee (syncInfo s') = false /\
    activeMasterKeyId (syncInfo s') = activeMasterKeyId (syncInfo s) /\
    masterKeys (syncInfo s') = masterKeys (syncInfo s) /\
    ppk (syncInfo s') = ppk (syncInfo s) /\
    masterPassword s' = masterPassword s /\
    passwordCache s' = passwordCache s /\
    items s' = forceSyncAll (items s) /\
    loadedIds s ⊆ loadedIds s'.
Proof.
  unfold setupAndDisableEncryption.
  erewrite bind_ok by reflexivity. erewrite bind_ok by reflexivity.
  match goal with
  | |- exists s', loadMasterKeysFromSettings ?s0 = _ /\ _ =>
      destruct (loadMasterKeysFromSettings_run s0)
        as (s' & Hrun & (Hinfo & Hmp & Hcache & Hitems) & Hsub & _)
  end.
  exists s'. split; [exact Hrun|].
  rewrite Hinfo, Hmp, Hcache, Hitems. simpl. repeat split. exact Hsub.
Qed.

(** X17. Enabling encryption with a known key and the password that
    unlocks it makes the key usable at once: after
    [setupAndEnableEncryption] the key is loaded in the service. *)
Theorem setupAndEnableEncryption_loads
    (mk : MasterKeyEntity) (password : string) (s : State Items) :
  mk ∈ masterKeys (syncInfo s) ->
  password <> EmptyString ->
  checkMasterKeyPassword mk password = true ->
  decryptMasterKeyContent mk password = None ->
  exists s',
    setupAndEnableEncryption (Some mk) (Some password) s = (inr tt, s') /\
    mk_id mk ∈ loadedIds s'.
Proof.
  intros Hin Hset Hcheck Hdecrypt. apply truthy_true in Hset.
  unfold setupAndEnableEncryption.
  erewrite bind_ok by reflexivity. simpl truthy_opt. rewrite Hset.
  erewrite bind_ok by reflexivity. erewrite bind_ok by reflexivity.
  match goal with
  | |- exists s', loadMasterKeysFromSettings ?s0 = _ /\ _ =>
      destruct (loadMasterKeysFromSettings_run s0) as (s' & Hrun & _ & _ & Hall & _)
  end.
  exists s'. split; [exact Hrun|]. apply Hall; [exact Hin|].
  exists password. rewrite findMasterKeyPassword_reads. simpl.
  rewrite Hset, Hcheck. repeat split; assumption.
Qed.

Lemma setupAndEnableEncryption_reload
    (masterKey : option MasterKeyEntity) (password : option string) (s : State Items) :
  exists s',
    setupAndEnableEncryption masterKey password s = (inr tt, s') /\
    loadMasterKeysFromSettings s' = (inr tt, s').
Proof.
  unfold setupAndEnableEncryption.
  erewrite bind_ok by reflexivity.
  destruct (truthy_opt password);
    (erewrite bind_ok by reflexivity);
    (erewrite bind_ok by reflexivity);
    match goal with
    | |- exists s', loadMasterKeysFromSettings ?s0 = _ /\ _ =>
        destruct (loadMasterKeysFromSettings_run s0) as (s' & Hrun & _ & _ & _ & Hagain)
    end;
    exists s'; split; assumption.
Qed.


Lemma generateMasterKeyAndEnableEncryption_run (password : string) (s : State Items) :
  match generateMasterKey password with
  | inl e => generateMasterKeyAndEnableEncryption password s = (inl e, s)
  | inr k =>
      exists s',
        generateMasterKeyAndEnableEncryption password s = (inr k, s') /\
        setupAndEnableEncryption (Some k) (Some password)
          (set_syncInfo
             (fun i => mkSyncInfo (e2ee i) (activeMasterKeyId i)
                         (save_in k (masterKeys i)) (ppk i)) s)
        = (inr tt, s') /\
        loadMasterKeysFromSettings s' = (inr tt, s')
  end.
Proof.
  unfold generateMasterKeyAndEnableEncryption, call.
  destruct (generateMasterKey password) as [e|k]; [reflexivity|].
  erewrite bind_ok by reflexivity.
  erewrite bind_ok by reflexivity.
  match goal with
  | |- context [setupAndEnableEncryption ?a ?b ?s0] =>
      destruct (setupAndEnableEncryption_reload a b s0) as (s' & Hrun & Hagain)
  end.
  exists s'. erewrite bind_ok by exact Hrun. erewrite bind_ok by exact Hagain.
  repeat split; assumption.
Qed.


(** X19. When the generation of the key throws,
    [generateMasterKeyAndEnableEncryption] and [toggleAndSetupEncryption]
    without key raise that error and change nothing: encryption is not
    enabled and no password is stored. *)
Theorem generateMasterKey_failure (password : string) (e : JsError) (s : State Items) :
  generateMasterKey password = inl e ->
  generateMasterKeyAndEnableEncryption password s = (inl e, s) /\
  toggleAndSetupEncryption true None password s = (inl e, s).
Proof.
  intros Hgen.
  pose proof (generateMasterKeyAndEnableEncryption_run password s) as Hrun.
  rewrite Hgen in Hrun. split; [exact Hrun|].
  unfold toggleAndSetupEncryption. simpl negb. cbv iota.
  apply bind_err. apply bind_err. exact Hrun.
Qed.

Lemma save_in_elem (mk : MasterKeyEntity) (mks : list MasterKeyEntity) :
  mk ∈ save_in mk mks.
Proof.
  induction mks as [|k rest IH]; simpl; [left|].
  destruct (id_is (mk_id mk) k); [left|right; exact IH].
Qed.

(** X20. When the generation of the key succeeds,
    [generateMasterKeyAndEnableEncryption] returns the generated key; the
    key is then in the registry, encryption is enabled, the key is the
    active one if its id is not empty, a non-empty password is the master
    password, and the key is loaded if the password is not empty and
    unlocks it. *)
Theorem generateMasterKey_success (password : string) (k : MasterKeyEntity) (s : State Items) :
  generateMasterKey password = inr k ->
  exists s',
    generateMasterKeyAndEnableEncryption password s = (inr k, s') /\
    k ∈ masterKeys (syncInfo s') /\
    e2ee (syncInfo s') = true /\
    (mk_id k <> EmptyString -> activeMasterKeyId (syncInfo s') = mk_id k) /\
    (password <> EmptyString -> masterPassword s' = password) /\
    (password <> EmptyString -> checkMasterKeyPassword k password = true ->
     decryptMasterKeyContent k password = None -> mk_id k ∈ loadedIds s').
Proof.
  intros Hgen.
  pose proof (generateMasterKeyAndEnableEncryption_run password s) as Hrun.
  rewrite Hgen in Hrun. destruct Hrun as (s' & Hrun & Hsetup & _).
  exists s'. split; [exact Hrun|].
  match type of Hsetup with
  | setupAndEnableEncryption _ _ ?s0 = _ =>
      destruct (setupAndEnableEncryption_effects (Some k) (Some password) s0)
        as (s1 & Hrun1 & He2ee & Hactive & Hmp & Hkeys & _);
      pose proof (setupAndEnableEncryption_loads k password s0) as Hloads
  end.
  rewrite Hsetup in Hrun1. injection Hrun1 as <-.
  split; [rewrite Hkeys; simpl; apply save_in_elem|].
  split; [exact He2ee|]. split; [|split].
  - intros Hid. apply truthy_true in Hid. rewrite Hactive, Hid. reflexivity.
  - intros Hset. apply truthy_true in Hset. rewrite Hmp, Hset. reflexivity.
  - intros Hset Hcheck Hdecrypt.
    destruct Hloads as (s2 & Hrun2 & Hloaded);
      [simpl; apply save_in_elem|assumption|assumption|assumption|].
    rewrite Hsetup in Hrun2. injection Hrun2 as <-. exact Hloaded.
Qed.

(** ** Further properties: the messages of the statuses *)

(** X21. Every status has a message, no two statuses have the same
    message, and the message is [Checking...] for the status [Unknown]
    only, so never for a status that [getMasterPasswordStatus] computes. *)
Theorem getMasterPasswordStatusMessage_distinct :
  (forall status, is_Some (getMasterPasswordStatusMessage status)) /\
  (forall a b,
     getMasterPasswordStatusMessage a = getMasterPasswordStatusMessage b -> a = b) /\
  (forall (s : State Items) status,
     fst (getMasterPasswordStatus s) = inr status ->
     getMasterPasswordStatusMessage status <> Some "Checking...").
Proof.
  split; [|split].
  - intros []; vm_compute; eexists; reflexivity.
  - intros [] []; vm_compute; intros H; first [reflexivity|discriminate H].
  - intros s status. rewrite getMasterPasswordStatus_reads. simpl.
    destruct (truthy (masterPassword s)).
    + destruct (fst (masterPasswordIsValid (masterPassword s) s)) as [e|[|]];
        intros [= <-]; vm_compute; discriminate.
    + intros [= <-]; vm_compute; discriminate.
Qed.

(** X22. The hook given to [updateMasterPassword] is called exactly when
    the change went through, and then in the state the change has left:
    with a hook the call does what it does without one and, if that
    succeeds, runs the hook; an error of the change keeps the hook from
    running. *)
Theorem updateMasterPassword_hook
    (s : State Items) (cur new : string) (hook : M unit) :
  updateMasterPassword cur new (Some hook) s
  = match updateMasterPassword cur new None s with
    | (inl e, s') => (inl e, s')
    | (inr _, s') => hook s'
    end.
Proof.
  rewrite !updateMasterPassword_run.
  destruct (changeOutcome cur new s) as [[e|[]] s']; reflexivity.
Qed.

End Utils.








(** * The utilities on the transparent instance *)

(** A password change that goes through: every key and the key pair are
    written under the new password, then the master password. *)
Example updateMasterPassword_uniform :
  updateMasterPassword unit Plain.reencryptMasterKey Plain.pkReencryptPrivateKey
    "pwA" "pwB" None Plain.uniform
  = (inr tt, Plain.uniformChanged).
Proof. reflexivity. Qed.

(** Migration promotes the cached password of the active key and drops
    the cache entries that hold it. *)
Example migrateMasterPassword_legacy :
  fst (migrateMasterPassword unit Plain.legacy) = inr tt /\
  masterPassword (snd (migrateMasterPassword unit Plain.legacy)) = "pwA" /\
  map_to_list (passwordCache (snd (migrateMasterPassword unit Plain.legacy)))
  = [("mk2", "pwC")].
Proof. vm_compute. repeat split. Qed.

(** C2. The stored master password is not protected against the empty
    string by [updateMasterPassword]: called with an empty new password
    on a state without keys in which the master password is set, it
    succeeds and leaves the master password empty. *)
Theorem updateMasterPassword_stores_empty_password :
  masterPassword Plain.keyless = "pwA" /\
  updateMasterPassword unit Plain.reencryptMasterKey Plain.pkReencryptPrivateKey
    "pwA" EmptyString None Plain.keyless
  = (inr tt, Plain.blank) /\
  masterPassword Plain.blank = EmptyString.
Proof.
  split; [reflexivity|]. split; [|reflexivity].
  exact (updateMasterPassword_keyless unit Plain.reencryptMasterKey
           Plain.pkReencryptPrivateKey Plain.keyless "pwA" EmptyString eq_refl eq_refl).
Qed.

(** C3. A flagged id that is the id of no known key is not ignored by
    [showMissingMasterKeyMessage]: with one key known and the only flagged
    id unknown, the function returns true. *)
Theorem showMissingMasterKeyMessage_unknown_id_warns :
  find (id_is "mk2") (masterKeys Plain.oneKnownKey) = None /\
  showMissingMasterKeyMessage Plain.oneKnownKey ["mk2"] = true.
Proof. split; reflexivity. Qed.

(** On [mixed] the second key is under another password: the change of
    password fails and [mixed] is left as it was. *)
Lemma updateMasterPassword_all_or_nothing_witness :
  reencryptionFails Plain.reencryptMasterKey Plain.pkReencryptPrivateKey
    "pwA" "pwB" (syncInfo Plain.mixed) /\
  exists e,
    updateMasterPassword unit Plain.reencryptMasterKey Plain.pkReencryptPrivateKey
      "pwA" "pwB" None Plain.mixed
    = (inl e, Plain.mixed).
Proof.
  assert (reencryptionFails Plain.reencryptMasterKey Plain.pkReencryptPrivateKey
            "pwA" "pwB" (syncInfo Plain.mixed)) as Hfail.
  { left. exists Plain.mk2, Plain.invalidPassword.
    split; [apply list_elem_of_further, list_elem_of_here|reflexivity]. }
  split; [exact Hfail|].
  exact (updateMasterPassword_all_or_nothing unit Plain.reencryptMasterKey
           Plain.pkReencryptPrivateKey Plain.mixed "pwA" "pwB" None Hfail).
Defined.

(** On [mixed], which has keys, a change without current password. *)
Lemma updateMasterPassword_requires_current_witness :
  updateMasterPassword unit Plain.reencryptMasterKey Plain.pkReencryptPrivateKey
    EmptyString "pwB" None Plain.mixed
  = (inl missingCurrentPassword, Plain.mixed).
Proof.
  apply (updateMasterPassword_requires_current unit Plain.reencryptMasterKey
           Plain.pkReencryptPrivateKey Plain.mixed "pwB" None).
  left. simpl. discriminate.
Defined.

(** On [blank], which has no key, a change without current password. *)
Lemma updateMasterPassword_without_keys_witness :
  updateMasterPassword unit Plain.reencryptMasterKey Plain.pkReencryptPrivateKey
    EmptyString "pwB" None Plain.blank
  = (inr tt, set_masterPassword "pwB" Plain.blank).
Proof.
  apply (updateMasterPassword_without_keys unit Plain.reencryptMasterKey
           Plain.pkReencryptPrivateKey Plain.blank EmptyString "pwB");
    reflexivity.
Defined.

(** On [mixed] the master password decrypts the first key, for which
    another password is cached, and does not decrypt the second. *)
Lemma findMasterKeyPassword_precedence_witness :
  passwordCache Plain.mixed !! "mk1" = Some "pwOld" /\
  findMasterKeyPassword unit Plain.checkMasterKeyPassword Plain.mk1 Plain.mixed
  = (inr (Some "pwA"), Plain.mixed) /\
  findMasterKeyPassword unit Plain.checkMasterKeyPassword Plain.mk2 Plain.mixed
  = (inr (passwordCache Plain.mixed !! "mk2"), Plain.mixed).
Proof.
  split; [reflexivity|]. split.
  - apply (proj1 (findMasterKeyPassword_precedence unit Plain.checkMasterKeyPassword
                    Plain.mixed Plain.mk1)); [discriminate|reflexivity].
  - apply (proj2 (findMasterKeyPassword_precedence unit Plain.checkMasterKeyPassword
                    Plain.mixed Plain.mk2)).
    intros [_ Hcheck]. discriminate Hcheck.
Defined.

(** On [keyless] a password is stored and there is nothing to check it
    against. *)
Lemma getMasterPasswordStatus_mapping_witness :
  getMasterPasswordStatus unit Plain.checkMasterKeyPassword Plain.ppkPasswordIsValid
    Plain.keyless
  = (inr Loaded, Plain.keyless).
Proof.
  destruct (getMasterPasswordStatus_mapping unit Plain.checkMasterKeyPassword
              Plain.ppkPasswordIsValid Plain.keyless)
    as (status & Hrun & _ & _ & Hset).
  destruct Hset as (Hloaded & _ & _); [discriminate|].
  rewrite Hrun. f_equal. f_equal. apply Hloaded.
  exists noKeyToDecrypt. split; reflexivity.
Defined.

(** The three cases: the active key of [stale], no key in [keyless], the
    key pair of [mixed]. *)
Lemma masterPasswordIsValid_cases_witness :
  masterPasswordIsValid unit Plain.checkMasterKeyPassword Plain.ppkPasswordIsValid
    "pwC" Plain.stale
  = (inr (Plain.checkMasterKeyPassword Plain.mk2 "pwC"), Plain.stale) /\
  masterPasswordIsValid unit Plain.checkMasterKeyPassword Plain.ppkPasswordIsValid
    "pwA" Plain.keyless
  = (inl noKeyToDecrypt, Plain.keyless) /\
  masterPasswordIsValid unit Plain.checkMasterKeyPassword Plain.ppkPasswordIsValid
    "pwA" Plain.mixed
  = (inr (Plain.ppkPasswordIsValid Plain.pair "pwA"), Plain.mixed).
Proof.
  split; [|split].
  - destruct (masterPasswordIsValid_cases unit Plain.checkMasterKeyPassword
                Plain.ppkPasswordIsValid Plain.stale "pwC")
      as (_ & _ & _ & Hdefault).
    destruct Hdefault as (mk & _ & Hvalid & Hactive); [reflexivity|discriminate|].
    simpl in Hactive. rewrite <- Hactive. exact Hvalid.
  - destruct (masterPasswordIsValid_cases unit Plain.checkMasterKeyPassword
                Plain.ppkPasswordIsValid Plain.keyless "pwA")
      as (_ & Hnone & _ & _).
    apply Hnone; reflexivity.
  - destruct (masterPasswordIsValid_cases unit Plain.checkMasterKeyPassword
                Plain.ppkPasswordIsValid Plain.mixed "pwA")
      as (_ & _ & Hpair & _).
    apply Hpair. reflexivity.
Defined.

(** On [stale] loading the first key throws, and the second key is
    loaded all the same. *)
Lemma loadMasterKeysFromSettings_best_effort_witness :
  Plain.decryptMasterKeyContent Plain.mk1 "pwOld" = Some Plain.invalidPassword /\
  exists s',
    loadMasterKeysFromSettings unit Plain.checkMasterKeyPassword
      Plain.decryptMasterKeyContent Plain.stale
    = (inr tt, s') /\
    "mk2" ∈ loadedIds unit s' /\ ~ "mk1" ∈ loadedIds unit s'.
Proof.
  split; [reflexivity|].
  destruct (loadMasterKeysFromSettings_best_effort unit Plain.checkMasterKeyPassword
              Plain.decryptMasterKeyContent Plain.stale)
    as (s' & Hrun & _ & Hall & Honly & _).
  exists s'. split; [exact Hrun|]. split.
  - apply (Hall Plain.mk2); [apply list_elem_of_further, list_elem_of_here|].
    exists "pwC". repeat split.
  - intros Hin. destruct (Honly _ Hin) as [Hbefore|(mk & Hmk & Hid & Hload)].
    + exact (not_elem_of_empty (C := gset string) _ Hbefore).
    + destruct Hload as (password & Hfound & _ & Hdecrypt).
      apply elem_of_cons in Hmk as [->|Hmk].
      * injection Hfound as <-. discriminate Hdecrypt.
      * apply elem_of_cons in Hmk as [->|Hmk]; [discriminate Hid|inversion Hmk].
Defined.

(** * The further properties on the transparent instance *)

(** The enabled key [mk1] and the disabled key [mk3], flagged in either
    order. *)
Lemma showMissingMasterKeyMessage_order_witness :
  showMissingMasterKeyMessage Plain.twoKnownKeys ["mk1"; "mk3"]
  = showMissingMasterKeyMessage Plain.twoKnownKeys ["mk3"; "mk1"].
Proof.
  apply (showMissingMasterKeyMessage_order Plain.twoKnownKeys ["mk1"; "mk3"] ["mk3"; "mk1"]).
  apply Permutation_swap.
Defined.

(** On [legacy] the password cached for the active key is promoted. *)
Lemma migrateMasterPassword_promotes_witness :
  exists s',
    migrateMasterPassword unit Plain.legacy = (inr tt, s') /\
    masterPassword s' = "pwA" /\
    (forall k v, passwordCache s' !! k = Some v <->
                 passwordCache Plain.legacy !! k = Some v /\ v <> "pwA") /\
    syncInfo s' = syncInfo Plain.legacy /\ service s' = service Plain.legacy /\
    items s' = items Plain.legacy.
Proof.
  apply (migrateMasterPassword_promotes unit Plain.legacy Plain.mk1 "pwA");
    first [reflexivity|discriminate].
Defined.

(** On [mixed] a master password is set. *)
Lemma migrateMasterPassword_pending_witness :
  migrateMasterPassword unit Plain.mixed = (inr tt, Plain.mixed).
Proof.
  apply (proj2 (migrateMasterPassword_pending unit Plain.mixed)). left. discriminate.
Defined.

Lemma migrateMasterPassword_then_find_witness :
  exists s',
    migrateMasterPassword unit Plain.legacy = (inr tt, s') /\
    findMasterKeyPassword unit Plain.checkMasterKeyPassword Plain.mk1 Plain.legacy
    = (inr (Some "pwA"), Plain.legacy) /\
    findMasterKeyPassword unit Plain.checkMasterKeyPassword Plain.mk1 s'
    = (inr (if Plain.checkMasterKeyPassword Plain.mk1 "pwA" then Some "pwA" else None), s').
Proof.
  apply (migrateMasterPassword_then_find unit Plain.checkMasterKeyPassword
           Plain.legacy Plain.mk1 "pwA");
    first [reflexivity|discriminate].
Defined.

(** On [mixed] the first key is re-encrypted and the second is not. *)
Lemma updateMasterPassword_first_failure_witness :
  updateMasterPassword unit Plain.reencryptMasterKey Plain.pkReencryptPrivateKey
    "pwA" "pwB" None Plain.mixed
  = (inl (mkError
            ("Master key " +:+ "mk2" +:+
             " could not be reencrypted - this is most likely due to an incorrect password. Please try again. Error was: "
             +:+ "Invalid password")
            None), Plain.mixed).
Proof.
  apply (updateMasterPassword_first_failure unit Plain.reencryptMasterKey
           Plain.pkReencryptPrivateKey Plain.mixed "pwA" "pwB" None
           [Plain.mk1] Plain.mk2 [] Plain.invalidPassword).
  - discriminate.
  - reflexivity.
  - intros k Hin. apply list_elem_of_singleton in Hin. subst k. eexists. reflexivity.
  - reflexivity.
Defined.

(** On [strayPair] the key is re-encrypted and the key pair is not. *)
Lemma updateMasterPassword_pair_failure_witness :
  updateMasterPassword unit Plain.reencryptMasterKey Plain.pkReencryptPrivateKey
    "pwA" "pwB" None Plain.strayPair
  = (inl (mkError
            ("Private key could not be reencrypted - this is most likely due to an incorrect password. Please try again. Error was: "
             +:+ "Invalid password")
            None), Plain.strayPair).
Proof.
  apply (updateMasterPassword_pair_failure unit Plain.reencryptMasterKey
           Plain.pkReencryptPrivateKey Plain.strayPair "pwA" "pwB" None
           (mkPpk "ppk1" "public" "pwOther") Plain.invalidPassword).
  - discriminate.
  - intros k Hin. apply list_elem_of_singleton in Hin. subst k. eexists. reflexivity.
  - reflexivity.
  - reflexivity.
Defined.

Lemma Plain_reencrypt_keeps_id (mk r : MasterKeyEntity) (cur new : string) :
  Plain.reencryptMasterKey mk cur new = inr r ->
  mk_id r = mk_id mk /\ Plain.checkMasterKeyPassword r new = true.
Proof.
  unfold Plain.reencryptMasterKey, Plain.checkMasterKeyPassword.
  destruct (String.eqb (mk_content mk) cur); [|discriminate].
  intros [= <-]. simpl. split; [reflexivity|apply String.eqb_refl].
Defined.

Lemma Plain_pair_reencrypt_valid (p p' : PublicPrivateKeyPair) (cur new : string) :
  Plain.pkReencryptPrivateKey p cur new = inr p' ->
  Plain.ppkPasswordIsValid p' new = true.
Proof.
  unfold Plain.pkReencryptPrivateKey, Plain.ppkPasswordIsValid.
  destruct (String.eqb (ppk_privateKey p) cur); [|discriminate].
  intros [= <-]. simpl. apply String.eqb_refl.
Defined.

Lemma uniform_ids_distinct : NoDup (map mk_id (masterKeys (syncInfo Plain.uniform))).
Proof.
  simpl. apply NoDup_cons. split.
  - intros Hin. apply list_elem_of_singleton in Hin. discriminate Hin.
  - apply NoDup_singleton.
Defined.

(** On [uniform] every key and the key pair are under the current
    password. *)
Lemma updateMasterPassword_registry_witness :
  Forall2 (fun mk r => Plain.reencryptMasterKey mk "pwA" "pwB" = inr r)
    (masterKeys (syncInfo Plain.uniform)) (masterKeys (syncInfo Plain.uniformChanged)) /\
  match ppk (syncInfo Plain.uniform) with
  | Some p => exists p', Plain.pkReencryptPrivateKey p "pwA" "pwB" = inr p' /\
                         ppk (syncInfo Plain.uniformChanged) = Some p'
  | None => ppk (syncInfo Plain.uniformChanged) = None
  end /\
  masterPassword Plain.uniformChanged = "pwB".
Proof.
  apply (updateMasterPassword_registry unit Plain.reencryptMasterKey
           Plain.pkReencryptPrivateKey Plain.uniform Plain.uniformChanged "pwA" "pwB").
  - exact uniform_ids_distinct.
  - intros mk r Hr. exact (proj1 (Plain_reencrypt_keeps_id mk r "pwA" "pwB" Hr)).
  - reflexivity.
Defined.

Lemma updateMasterPassword_then_valid_witness :
  getMasterPasswordStatus unit Plain.checkMasterKeyPassword Plain.ppkPasswordIsValid
    Plain.uniformChanged
  = (inr Valid, Plain.uniformChanged).
Proof.
  apply (updateMasterPassword_then_valid unit Plain.checkMasterKeyPassword
           Plain.ppkPasswordIsValid Plain.reencryptMasterKey Plain.pkReencryptPrivateKey
           Plain.uniform Plain.uniformChanged "pwA" "pwB").
  - exact uniform_ids_distinct.
  - intros mk r Hr. exact (Plain_reencrypt_keeps_id mk r "pwA" "pwB" Hr).
  - intros p p' Hp. exact (Plain_pair_reencrypt_valid p p' "pwA" "pwB" Hp).
  - left. discriminate.
  - discriminate.
  - reflexivity.
Defined.

(** On [legacy], encryption is set up with the first key and its
    password. *)
Lemma setupAndEnableEncryption_loads_witness :
  exists s',
    setupAndEnableEncryption unit Plain.markAllNonEncryptedForSync
      Plain.checkMasterKeyPassword Plain.decryptMasterKeyContent
      (Some Plain.mk1) (Some "pwA") Plain.legacy
    = (inr tt, s') /\
    "mk1" ∈ loadedIds unit s'.
Proof.
  apply (setupAndEnableEncryption_loads unit Plain.markAllNonEncryptedForSync
           Plain.checkMasterKeyPassword Plain.decryptMasterKeyContent
           Plain.mk1 "pwA" Plain.legacy).
  - apply list_elem_of_here.
  - discriminate.
  - reflexivity.
  - reflexivity.
Defined.

(** The generation of a key with an empty password fails. *)
Lemma generateMasterKey_failure_witness :
  generateMasterKeyAndEnableEncryption unit Plain.markAllNonEncryptedForSync
    Plain.checkMasterKeyPassword Plain.decryptMasterKeyContent Plain.generateMasterKey
    EmptyString Plain.blank
  = (inl (Error "Encryption key is required"), Plain.blank) /\
  toggleAndSetupEncryption unit Plain.markAllNonEncryptedForSync
    Plain.checkMasterKeyPassword Plain.decryptMasterKeyContent Plain.forceSyncAll
    Plain.generateMasterKey true None EmptyString Plain.blank
  = (inl (Error "Encryption key is required"), Plain.blank).
Proof.
  apply (generateMasterKey_failure unit Plain.markAllNonEncryptedForSync
           Plain.checkMasterKeyPassword Plain.decryptMasterKeyContent Plain.forceSyncAll
           Plain.generateMasterKey EmptyString (Error "Encryption key is required")
           Plain.blank).
  reflexivity.
Defined.

(** The generation of a key on [blank] with a password. *)
Lemma generateMasterKey_success_witness :
  exists s',
    generateMasterKeyAndEnableEncryption unit Plain.markAllNonEncryptedForSync
      Plain.checkMasterKeyPassword Plain.decryptMasterKeyContent Plain.generateMasterKey
      "pw9" Plain.blank
    = (inr (mkMasterKey "mk9" 90 "pw9" true), s') /\
    masterKeys (syncInfo s') = [mkMasterKey "mk9" 90 "pw9" true] /\
    activeMasterKeyId (syncInfo s') = "mk9" /\
    masterPassword s' = "pw9" /\
    "mk9" ∈ loadedIds unit s'.
Proof.
  destruct (generateMasterKey_success unit Plain.markAllNonEncryptedForSync
              Plain.checkMasterKeyPassword Plain.decryptMasterKeyContent
              Plain.generateMasterKey "pw9" (mkMasterKey "mk9" 90 "pw9" true)
              Plain.blank eq_refl)
    as (s' & Hrun & _ & _ & Hactive & Hmp & Hloaded).
  exists s'. split; [exact Hrun|].
  split; [injection Hrun as <-; reflexivity|].
  split; [apply Hactive; discriminate|].
  split; [apply Hmp; discriminate|].
  apply Hloaded; first [discriminate|reflexivity].
Defined.
